(** * dapi-client: lifecycle state machine and dependency setters

    A shallow embedding of [src/DapiClientMixin.ts] and of its two earlier
    revisions, with the properties of the definition validator, of the
    synthesized [close] / [isHealthy] / [status] operations and of the
    dependency setters.

    - [Js]: the fragment of JavaScript values the code inspects
      (truthiness, [typeof], [===], property reads on heap objects).
    - [Closure]: the current revision, where the status is the closure
      variable [_status] of [DapiClientMixin].
    - [Bundle]: the revision that keeps the status inside the dependency
      bundle; only its validator is needed here.
    - [ClassMixin]: the class based revision with [setClient] and
      [setDependencies].
    - [Samples]: concrete definitions, classes, user functions and
      instances.
    - [Validation], [Lifecycle], [Setters]: the properties. *)

From stdpp Require Import gmap strings list fin_maps.

Local Open Scope string_scope.
Local Open Scope list_scope.

(* ===================================================================== *)
(** ** JavaScript values *)
(* ===================================================================== *)

Module Js.

(** Objects live in a heap and values refer to them by address, so that
    two references to one object alias.  A function object is identified
    by a number; what it does when called is given separately. *)
Inductive value :=
  | VUndefined
  | VNull
  | VBool (b : bool)
  | VNum (n : Z)
  | VNaN
  | VStr (s : string)
  | VObj (l : nat)
  | VFun (f : nat).

#[global] Instance value_eq_dec : EqDecision value.
Proof. solve_decision. Defined.

(** A plain object: own enumerable string keys.  The heap is indexed by
    address. *)
Abbreviation object := (gmap string value).
Abbreviation heap := (list object).

(** What is thrown: the [TypeError]s the library raises (message and the
    single entry of its [cause] object, when it has one), or whatever a
    user supplied function throws or rejects with. *)
Inductive exn :=
  | TypeError (message : string) (cause : option (string * value))
  | UserError (v : value).

#[global] Instance exn_eq_dec : EqDecision exn.
Proof. solve_decision. Defined.

Definition is_TypeError (e : exn) : bool :=
  match e with TypeError _ _ => true | UserError _ => false end.

(** [!!v]: every value is truthy but [false], [0], [NaN], [""], [null]
    and [undefined]. *)
Definition truthy (v : value) : bool :=
  match v with
  | VUndefined | VNull | VNaN => false
  | VBool b => b
  | VNum n => negb (n =? 0)%Z
  | VStr s => negb (String.eqb s "")
  | VObj _ | VFun _ => true
  end.

Inductive type_tag :=
  TUndefined | TObject | TBoolean | TNumber | TString | TFunction.

#[global] Instance type_tag_eq_dec : EqDecision type_tag.
Proof. solve_decision. Defined.

Definition typeof (v : value) : type_tag :=
  match v with
  | VUndefined => TUndefined
  | VNull | VObj _ => TObject
  | VBool _ => TBoolean
  | VNum _ | VNaN => TNumber
  | VStr _ => TString
  | VFun _ => TFunction
  end.

Definition is_function (v : value) : bool := bool_decide (typeof v = TFunction).

(** [a === b]: by value on primitives ([NaN] differs from itself), by
    address on objects and functions. *)
Definition strict_eq (a b : value) : bool :=
  match a, b with
  | VNaN, _ | _, VNaN => false
  | _, _ => bool_decide (a = b)
  end.

(** The object at an address; an address outside the heap reads as an
    object without keys. *)
Definition deref (h : heap) (l : nat) : object := default ∅ (h !! l).

(** [v.k] for a [v] that is neither [null] nor [undefined].  Only the keys
    [client], [close], [isHealthy] and [status] are ever read, none of
    which a primitive or a function inherits, so those read [undefined]. *)
Definition get (h : heap) (v : value) (k : string) : value :=
  match v with
  | VObj l => default VUndefined (deref h l !! k)
  | _ => VUndefined
  end.

(** [Object.values(o)] *)
Definition values (o : object) : list value := (map_to_list o).*2.

(** Computations that may throw. *)
Definition throws_when (c : bool) (e : exn) : exn + unit :=
  if c then inl e else inr tt.

End Js.

Export Js.

Notation "'do' c1 ';' c2" :=
  (match c1 with inl e => inl e | inr _ => c2 end)
  (at level 10, c1 at level 100, c2 at level 200,
   format "'[v' 'do'  c1 ';' '/' c2 ']'").

Definition newline : string := String (Ascii.ascii_of_nat 10) EmptyString.

(** The definition object handed to [DapiClientMixin]; an absent field
    reads [undefined]. *)
Record definition := {
  def_close : value;
  def_isHealthy : value;
  def_dependencies : value;
  def_fns : value;
  def_type : value
}.

(** Modelled from the spec: the command-injection facade [DapiMixin] of the
    package [@carpasse/dapi], which is not part of this repository.  Of
    its own checks only that of the identity label is described: a
    definition without a [type] is refused. *)
Definition DapiMixin_validate (d : definition) : exn + unit :=
  throws_when (negb (truthy (def_type d)))
    (TypeError "Definition must have a type" (Some ("type", def_type d))).

(** The enum [ClientStatus], the same in every revision. *)
Inductive ClientStatus := OPEN | CLOSED | CLOSING.

#[global] Instance ClientStatus_eq_dec : EqDecision ClientStatus.
Proof. solve_decision. Defined.

Definition status_value (s : ClientStatus) : value :=
  match s with
  | OPEN => VStr "open"
  | CLOSED => VStr "closed"
  | CLOSING => VStr "closing"
  end.

(** An entry of the dictionary handed to the facade: a value of the
    user's [fns], or one of the three synthesized closures. *)
Inductive entry :=
  | Fn (v : value)
  | SynthClose
  | SynthIsHealthy
  | SynthStatus.

(** [{...definition.fns, close, isHealthy, status}]: the later keys of the
    literal override the spread ones. *)
Definition merged_fns (user_fns : object) : gmap string entry :=
  <["status" := SynthStatus]>
    (<["isHealthy" := SynthIsHealthy]>
       (<["close" := SynthClose]> (Fn <$> user_fns))).

(** [{...v}]: the own keys of an object, none for anything else. *)
Definition spread (h : heap) (v : value) : object :=
  match v with
  | VObj l => deref h l
  | _ => ∅
  end.

(* ===================================================================== *)
(** ** The current revision: status in the closure *)
(* ===================================================================== *)

Module Closure.

Definition validateDefinition (h : heap) (d : definition) : exn + unit :=
  let _close := def_close d in
  let _isHealthy := def_isHealthy d in
  let dependencies := def_dependencies d in
  let fns := def_fns d in
  do throws_when (truthy _close && negb (is_function _close))
       (TypeError "close must be a function" (Some ("close", _close)));
  do throws_when (truthy _isHealthy && negb (is_function _isHealthy))
       (TypeError "isHealthy must be a function" (Some ("_isHealthy", _isHealthy)));
  do throws_when (negb (truthy dependencies))
       (TypeError "Definition must have dependencies"
          (Some ("dependencies", dependencies)));
  do throws_when (truthy (get h dependencies "close")
                  || truthy (get h dependencies "isHealthy"))
       (TypeError
          ("Dependencies cannot have a `close` or `isHealthy` properties."
             +:+ newline +:+ "Please remove them from the dependencies object.")
          (Some ("dependencies", dependencies)));
  do throws_when (negb (truthy (get h dependencies "client")))
       (TypeError "Dependencies must have a client"
          (Some ("dependencies", dependencies)));
  match fns with
  | VObj l =>
      throws_when (existsb (λ fn, negb (is_function fn)) (values (deref h l)))
        (TypeError "Definition's fns dictionary must only contain values of type fn"
           (Some ("fns", fns)))
  | _ =>
      (* typeof fns !== 'object' || fns === null *)
      inl (TypeError "Definition must have a dictionary (`fns`) of Dapi functions"
             (Some ("fns", fns)))
  end.


(** The checks of the current validator that do not concern [fns]. *)
Definition valid_but_for_fns (h : heap) (d : definition) : bool :=
  negb (truthy (def_close d) && negb (is_function (def_close d)))
  && negb (truthy (def_isHealthy d) && negb (is_function (def_isHealthy d)))
  && truthy (def_dependencies d)
  && negb (truthy (get h (def_dependencies d) "close")
           || truthy (get h (def_dependencies d) "isHealthy"))
  && truthy (get h (def_dependencies d) "client")
  && truthy (def_type d).

(** *** Users' functions, promises and the shared state *)

(** An argument handed to a user function: a value, or the fresh object
    literal [{delay}] that [close] builds for the user's close function. *)
Inductive arg :=
  | Arg (v : value)
  | Opts (delay : value).

(** What one call of a user supplied function does: it returns a value
    that is not a promise, returns a promise of its own, or throws. *)
Inductive outcome :=
  | Returns (v : value)
  | ReturnsPromise (p : nat)
  | Throws (e : exn).

(** Promises: the user's own, and those [close] creates with [.then]. *)
Inductive promise :=
  | UserP (p : nat)
  | ThenP (d : nat).

Inductive settlement :=
  | Fulfilled (v : value)
  | Rejected (e : exn).

(** What a caller of a bound method observes. *)
Inductive result :=
  | Returned (v : value)
  | ReturnedPromise (p : promise)
  | Threw (e : exn).

Definition result_of (o : outcome) : result :=
  match o with
  | Returns v => Returned v
  | ReturnsPromise p => ReturnedPromise (UserP p)
  | Throws e => Threw e
  end.

(** Through which slot of the definition a user function was reached. *)
Inductive slot :=
  | CloseFn
  | IsHealthyFn
  | Command (name : string).

#[global] Instance slot_eq_dec : EqDecision slot.
Proof. solve_decision. Defined.

(** One entry of the call record: [fn.call(this, ...args)], together with
    the status the callee would have read on entry. *)
Record call := {
  via : slot;
  callee : nat;
  this : nat;
  args : list arg;
  status_on_entry : ClientStatus
}.

(** The closure of one call of [DapiClientMixin], that is, what the class
    it returns captures. [_close] and [_isHealthy] never change. *)
Record mixin := {
  _close : value;
  _isHealthy : value;
  dependencies : value;
  fns : gmap string entry
}.

(** The mutable part.  [_status] is the [let] of [DapiClientMixin]: there
    is one per returned class, whatever the number of instances.  Each
    instance holds the reference to its dependency bundle.  [settled]
    records the user promises that have settled, [reactions] the
    [.then] callbacks registered on a pending promise (promise, derived
    promise), [jobs] the microtask queue, and [thens] the promises made by
    [.then], by number, with their state. *)
Record world := {
  _status : ClientStatus;
  instances : list value;
  log : list call;
  settled : gmap nat settlement;
  reactions : list (nat * nat);
  jobs : list (nat * settlement);
  thens : list (option settlement)
}.

Definition set_status (s : ClientStatus) (w : world) : world :=
  {| _status := s; instances := instances w; log := log w;
     settled := settled w; reactions := reactions w; jobs := jobs w;
     thens := thens w |}.

Definition record (c : call) (w : world) : world :=
  {| _status := _status w; instances := instances w; log := log w ++ [c];
     settled := settled w; reactions := reactions w; jobs := jobs w;
     thens := thens w |}.

Definition fresh : world :=
  {| _status := OPEN; instances := []; log := []; settled := ∅;
     reactions := []; jobs := []; thens := [] |}.

(** [DapiClientMixin(definition, SuperClass)]: the validator, then the facade
    is given the dictionary with the three synthesized operations. *)
Definition DapiClientMixin (h : heap) (d : definition) : exn + mixin :=
  do validateDefinition h d;
  do DapiMixin_validate d;
  inr {| _close := def_close d;
         _isHealthy := def_isHealthy d;
         dependencies := def_dependencies d;
         fns := merged_fns (spread h (def_fns d)) |}.

Section Operations.

(** [behaviour f k args]: what the user function [f] does when it is
    called with [args] after [k] earlier calls of user functions, so that
    a function may answer differently from one call to the next.  A user
    function cannot reach [_status] but through the three operations
    below; what it would read through them while it runs is kept in the
    call record as [status_on_entry]; the calls it might make back into
    the instance while it runs are not part of the model. *)
Variable behaviour : nat → nat → list arg → outcome.

Variable m : mixin.

(** [response.then(() => { _status = CLOSED })]: a new promise; its
    callback is queued at once when [response] has settled already, and is
    registered on it otherwise. *)
Definition response_then (p : nat) (w : world) : result * world :=
  let d := length (thens w) in
  (ReturnedPromise (ThenP d),
   match settled w !! p with
   | Some o =>
       {| _status := _status w; instances := instances w; log := log w;
          settled := settled w; reactions := reactions w;
          jobs := jobs w ++ [(d, o)]; thens := thens w ++ [None] |}
   | None =>
       {| _status := _status w; instances := instances w; log := log w;
          settled := settled w; reactions := reactions w ++ [(p, d)];
          jobs := jobs w; thens := thens w ++ [None] |}
   end).

Definition close (this : nat) (deps : value) (delay : value) (w : world)
  : result * world :=
  if decide (_status w ≠ OPEN) then (Returned VUndefined, w)
  else
    match _close m with
    | VFun f =>
        let w := set_status CLOSING w in
        let response := behaviour f (length (log w)) [Arg deps; Opts delay] in
        let w := record {| via := CloseFn; callee := f; this := this;
                           args := [Arg deps; Opts delay];
                           status_on_entry := _status w |} w in
        match response with
        | Throws e => (Threw e, w)
        | ReturnsPromise p => response_then p w
        | Returns _ => (Returned VUndefined, set_status CLOSED w)
        end
    | _ => (Returned VUndefined, set_status CLOSED w)
    end.

Definition status (w : world) : ClientStatus := _status w.

Definition isHealthy (this : nat) (deps : value) (w : world) : result * world :=
  if decide (_status w ≠ OPEN) then (Returned (VBool false), w)
  else
    match _isHealthy m with
    | VFun f =>
        (result_of (behaviour f (length (log w)) [Arg deps]),
         record {| via := IsHealthyFn; callee := f; this := this;
                   args := [Arg deps]; status_on_entry := _status w |} w)
    | _ => (Returned (VBool true), w)
    end.

(** The second parameter of [close] is [{delay}: {delay?: number} = {}].
    An options object is written [Opts d]; the parameter type admits
    nothing else but a missing argument, which leaves [delay] undefined. *)
Definition delay_of (args : list arg) : value :=
  match args with
  | Opts d :: _ => d
  | _ => VUndefined
  end.

(** Modelled from the spec: the facade of [@carpasse/dapi], not part of
    this repository, exposes every entry of the dictionary as a method
    bound to the instance, called with the instance's current dependency
    bundle before the caller's arguments. *)
Definition invoke (i : nat) (name : string) (args : list arg) (w : world)
  : result * world :=
  match instances w !! i with
  | None => (Threw (TypeError "no such instance" None), w)
  | Some deps =>
      match fns m !! name with
      | Some SynthClose => close i deps (delay_of args) w
      | Some SynthIsHealthy => isHealthy i deps w
      | Some SynthStatus => (Returned (status_value (status w)), w)
      | Some (Fn (VFun f)) =>
          (result_of (behaviour f (length (log w)) (Arg deps :: args)),
           record {| via := Command name; callee := f; this := i;
                     args := Arg deps :: args;
                     status_on_entry := _status w |} w)
      | _ => (Threw (TypeError (name +:+ " is not a function") None), w)
      end
  end.

(** Modelled from the spec: [new Cls()] seeds the store of the new
    instance with the bundle of the definition. *)
Definition new (w : world) : world :=
  {| _status := _status w; instances := instances w ++ [dependencies m];
     log := log w; settled := settled w; reactions := reactions w;
     jobs := jobs w; thens := thens w |}.

(** A user promise settles: once only; the callbacks registered on it
    become jobs. *)
Definition settle (p : nat) (o : settlement) (w : world) : world :=
  match settled w !! p with
  | Some _ => w
  | None =>
      {| _status := _status w; instances := instances w; log := log w;
         settled := <[p := o]> (settled w);
         reactions := filter (λ r, r.1 ≠ p) (reactions w);
         jobs := jobs w ++ ((λ r, (r.2, o)) <$> filter (λ r, r.1 = p) (reactions w));
         thens := thens w |}
  end.

(** The next microtask: the callback of [close] runs when its promise was
    fulfilled, and the derived promise settles. *)
Definition tick (w : world) : world :=
  match jobs w with
  | [] => w
  | (d, Fulfilled _) :: js =>
      {| _status := CLOSED; instances := instances w; log := log w;
         settled := settled w; reactions := reactions w; jobs := js;
         thens := <[d := Some (Fulfilled VUndefined)]> (thens w) |}
  | (d, Rejected e) :: js =>
      {| _status := _status w; instances := instances w; log := log w;
         settled := settled w; reactions := reactions w; jobs := js;
         thens := <[d := Some (Rejected e)]> (thens w) |}
  end.

(** What can happen to one class: an instance is made, a method of an
    instance is called, a user promise settles, a microtask runs. *)
Inductive event :=
  | New
  | Invoke (i : nat) (name : string) (args : list arg)
  | Settle (p : nat) (o : settlement)
  | Tick.

Definition step (w : world) (e : event) : world :=
  match e with
  | New => new w
  | Invoke i name args => (invoke i name args w).2
  | Settle p o => settle p o w
  | Tick => tick w
  end.

Definition run (es : list event) (w : world) : world := foldl step w es.

Definition reachable (w : world) : Prop := ∃ es, w = run es fresh.

(** Running the microtask queue dry. *)
Definition drain (w : world) : world := run (replicate (length (jobs w)) Tick) w.

Definition close_calls (l : list call) : nat :=
  length (filter (λ c, via c = CloseFn) l).

(** *** Invariants of the state machine *)

(** What holds of every world reachable from [fresh]: the user's close
    function has been called once the status has left [OPEN] (if there is
    one) and not before; callbacks are pending only while the status is
    [CLOSING], at most one of them, and only on a promise that has not
    settled. *)
Definition inv (w : world) : Prop :=
  (_status w = OPEN → close_calls (log w) = 0)
  ∧ (_status w ≠ OPEN →
     close_calls (log w) = if is_function (_close m) then 1 else 0)
  ∧ (_status w ≠ CLOSING → reactions w = [] ∧ jobs w = [])
  ∧ (length (reactions w) + length (jobs w) ≤ 1)%nat
  ∧ (∀ r, r ∈ reactions w → settled w !! r.1 = None).

(** Every call recorded through a command name went to the function the
    dictionary holds under that name. *)
Definition commands_from_fns (w : world) : Prop :=
  ∀ c name, c ∈ log w → via c = Command name →
            fns m !! name = Some (Fn (VFun (callee c))).

(** A failed shutdown: the status is [CLOSING], nothing waits on a
    promise, and whatever is still queued carries a rejection. *)
Definition stuck (w : world) : Prop :=
  _status w = CLOSING ∧ reactions w = []
  ∧ Forall (λ j : nat * settlement, ∃ e, j.2 = Rejected e) (jobs w).

(** The course of one asynchronous [close] whose user function returned
    the promise [p] and which returned the derived promise [d]: waiting
    for [p], callback queued, then stuck in [CLOSING] after a rejection or
    [CLOSED] after a fulfilment. *)
Inductive tracks (p d : nat) (w : world) : Prop :=
  | tracks_waiting :
      _status w = CLOSING → settled w !! p = None →
      reactions w = [(p, d)] → jobs w = [] → thens w !! d = Some None →
      tracks p d w
  | tracks_queued o :
      _status w = CLOSING → settled w !! p = Some o →
      reactions w = [] → jobs w = [(d, o)] → thens w !! d = Some None →
      tracks p d w
  | tracks_rejected e :
      _status w = CLOSING → settled w !! p = Some (Rejected e) →
      reactions w = [] → jobs w = [] →
      thens w !! d = Some (Some (Rejected e)) →
      tracks p d w
  | tracks_closed v :
      _status w = CLOSED → settled w !! p = Some (Fulfilled v) →
      reactions w = [] → jobs w = [] →
      thens w !! d = Some (Some (Fulfilled VUndefined)) →
      tracks p d w.

End Operations.

(** The order of the lifecycle. *)
Definition rank (s : ClientStatus) : nat :=
  match s with
  | OPEN => 0
  | CLOSING => 1
  | CLOSED => 2
  end.

(** Two worlds that differ at most in their instances and call record. *)
Definition same_async (w w' : world) : Prop :=
  _status w' = _status w ∧ settled w' = settled w
  ∧ reactions w' = reactions w ∧ jobs w' = jobs w ∧ thens w' = thens w.

(** [createDapiClient(definition, SuperClass)], that is
    [new (DapiClientMixin(definition, SuperClass))()]: every client gets a
    class of its own, and is its one instance. *)
Definition createDapiClient (h : heap) (d : definition) : exn + (mixin * world) :=
  match DapiClientMixin h d with
  | inl e => inl e
  | inr m => inr (m, new m fresh)
  end.

(** An entry of the call record is in order when the user function it
    names is the one the class holds for that slot, was given the bundle
    of the instance it was called on as its first argument, and was
    entered in the state its slot allows: the close function with the
    status [CLOSING], the health check with the status [OPEN]. *)
Definition in_order (m : mixin) (w : world) (c : call) : Prop :=
  (∃ deps rest, args c = Arg deps :: rest ∧ instances w !! this c = Some deps)
  ∧ match via c with
    | CloseFn =>
        _close m = VFun (callee c) ∧ status_on_entry c = CLOSING
        ∧ ∃ deps delay, args c = [Arg deps; Opts delay]
    | IsHealthyFn =>
        _isHealthy m = VFun (callee c) ∧ status_on_entry c = OPEN
        ∧ ∃ deps, args c = [Arg deps]
    | Command name => fns m !! name = Some (Fn (VFun (callee c)))
    end.

Definition all_in_order (m : mixin) (w : world) : Prop :=
  ∀ c, c ∈ log w → in_order m w c.

(** A class without a close function of the user: never [CLOSING],
    nothing pending, no promise made. *)
Definition never_closing (w : world) : Prop :=
  _status w ≠ CLOSING ∧ reactions w = [] ∧ jobs w = [] ∧ thens w = []
  ∧ close_calls (log w) = 0%nat.

(** The definition with its [close], or its [isHealthy], taken out. *)
Definition without_close (d : definition) : definition :=
  {| def_close := VUndefined; def_isHealthy := def_isHealthy d;
     def_dependencies := def_dependencies d; def_fns := def_fns d;
     def_type := def_type d |}.

Definition without_isHealthy (d : definition) : definition :=
  {| def_close := def_close d; def_isHealthy := VUndefined;
     def_dependencies := def_dependencies d; def_fns := def_fns d;
     def_type := def_type d |}.

End Closure.

(* ===================================================================== *)
(** ** The revision with the status inside the bundle *)
(* ===================================================================== *)

Module Bundle.

(** [v.k], which throws on [null] and [undefined]: this revision reads
    the bundle without looking at it first. *)
Definition read (h : heap) (v : value) (k : string) : exn + value :=
  match v with
  | VUndefined | VNull =>
      inl (TypeError ("Cannot read properties of undefined (reading '"
                        +:+ k +:+ "')") None)
  | _ => inr (get h v k)
  end.

Definition validateDefinition (h : heap) (d : definition) : exn + unit :=
  let _close := def_close d in
  let _isHealthy := def_isHealthy d in
  let dependencies := def_dependencies d in
  do throws_when (truthy _close && negb (is_function _close))
       (TypeError "close must be a function" (Some ("close", _close)));
  do throws_when (truthy _isHealthy && negb (is_function _isHealthy))
       (TypeError "isHealthy must be a function" (Some ("_isHealthy", _isHealthy)));
  do read h dependencies "close";
  throws_when (truthy (get h dependencies "close")
               || truthy (get h dependencies "isHealthy")
               || truthy (get h dependencies "status"))
    (TypeError
       ("Dependencies cannot have a `close` or `isHealthy` or `status` property."
          +:+ newline +:+ "Please remove it from the dependencies.")
       (Some ("dependencies", dependencies))).

(** What the facade receives: the bundle seeded with the status, and the
    dictionary with the three synthesized operations. *)
Record mixin := {
  _close : value;
  _isHealthy : value;
  dependencies : object;
  fns : gmap string entry
}.

Definition DapiClientMixin (h : heap) (d : definition) : exn + mixin :=
  do validateDefinition h d;
  do DapiMixin_validate d;
  inr {| _close := def_close d;
         _isHealthy := def_isHealthy d;
         dependencies := <["status" := status_value OPEN]> (spread h (def_dependencies d));
         fns := merged_fns (spread h (def_fns d)) |}.

End Bundle.

(* ===================================================================== *)
(** ** The class based revision: [setClient] and [setDependencies] *)
(* ===================================================================== *)

Module ClassMixin.

(** An instance of [DapiClientWrapper]: its three private fields, and the
    dependency store it inherits from the facade's class, which holds a
    reference to the current bundle.  The state is the heap of objects
    together with the instance.  Of this revision the constructor, the
    getters and the setters are embedded. *)
Record state := {
  objects : heap;
  _status : ClientStatus;
  _close : value;
  _isHealthy : value;
  store : value
}.

Definition with_objects (h : heap) (st : state) : state :=
  {| objects := h; _status := _status st; _close := _close st;
     _isHealthy := _isHealthy st; store := store st |}.

(** Modelled from the spec: the dependency store of the facade
    [@carpasse/dapi], not part of this repository.  [getDependencies]
    returns the current bundle, and the inherited [setDependencies]
    replaces it wholesale. *)
Definition getDependencies (st : state) : value := store st.

Definition super_setDependencies (newDeps : value) (st : state) : state :=
  {| objects := objects st; _status := _status st; _close := _close st;
     _isHealthy := _isHealthy st; store := newDeps |}.

(** [o.k = v] in strict code: a write into the object at that address
    (nothing is written at an address outside the heap); a [TypeError] on
    [null], [undefined] and on a primitive.  Own keys of function objects
    are not modelled, so a write on one leaves no trace. *)
Definition assign (o : value) (k : string) (v : value) (st : state)
  : (exn + unit) * state :=
  match o with
  | VObj l => (inr tt, with_objects (<[l := <[k := v]> (deref (objects st) l)]> (objects st)) st)
  | VFun _ => (inr tt, st)
  | VUndefined | VNull =>
      (inl (TypeError ("Cannot set properties of undefined (setting '"
                         +:+ k +:+ "')") None), st)
  | _ => (inl (TypeError ("Cannot create property '" +:+ k +:+ "'") None), st)
  end.

Definition status (st : state) : ClientStatus := _status st.

(** [this.getDependencies()?.client] *)
Definition getClient (st : state) : value :=
  get (objects st) (getDependencies st) "client".

Definition setClient (newClient : value) (st : state) : (exn + unit) * state :=
  if negb (truthy newClient) then
    (inl (TypeError "Client cannot be falsy" (Some ("client", newClient))), st)
  else
    let dependencies := getDependencies st in
    if strict_eq (get (objects st) dependencies "client") newClient then (inr tt, st)
    else assign dependencies "client" newClient st.

Definition setDependencies (newDeps : value) (st : state) : (exn + unit) * state :=
  if negb (truthy newDeps) then
    (inl (TypeError "Dependencies must be defined" (Some ("dependencies", newDeps))), st)
  else if negb (truthy (get (objects st) newDeps "client")) then
    (inl (TypeError "Dependencies must have a client" (Some ("dependencies", newDeps))), st)
  else
    let dependencies := getDependencies st in
    if strict_eq dependencies newDeps then (inr tt, st)
    else (inr tt, super_setDependencies newDeps st).

(** The constructor, after [super(...args)] has seeded the store with
    [seed]: the client is checked, the fields are set, and the bundle is
    replaced by a copy that carries the three bound methods.  [bound] names
    the function objects that [bind] creates. *)
Definition new (close isHealthy : value) (bound : string → nat)
    (h : heap) (seed : value) : exn + state :=
  let st := {| objects := h; _status := OPEN; _close := close;
               _isHealthy := isHealthy; store := seed |} in
  let dependencies := getDependencies st in
  match dependencies with
  | VUndefined | VNull =>
      inl (TypeError "Cannot read properties of undefined (reading 'client')" None)
  | _ =>
      if negb (truthy (get h dependencies "client")) then
        inl (TypeError "Dependencies must have a client"
               (Some ("dependencies", dependencies)))
      else
        let literal :=
          <["status" := VFun (bound "status")]>
            (<["isHealthy" := VFun (bound "isHealthy")]>
               (<["close" := VFun (bound "close")]> (spread h dependencies))) in
        let st := with_objects (h ++ [literal]) st in
        match setDependencies (VObj (length h)) st with
        | (inl e, _) => inl e
        | (inr _, st) => inr st
        end
  end.

(** Following the words of the spec, not the source: [update(partial)]
    merges [partial] into the current bundle, producing a new bundle
    instance in which the keys of [partial] override; the previous bundle
    object is left as it is. *)
Definition update_spec (partial : object) (st : state) : state :=
  let merged := partial ∪ spread (objects st) (getDependencies st) in
  super_setDependencies (VObj (length (objects st)))
    (with_objects (objects st ++ [merged]) st).

(** What can be done to an instance from outside. *)
Inductive op :=
  | SetClient (newClient : value)
  | SetDependencies (newDeps : value)
  | Allocate (o : object).

Definition apply (st : state) (o : op) : state :=
  match o with
  | SetClient c => (setClient c st).2
  | SetDependencies d => (setDependencies d st).2
  | Allocate o => with_objects (objects st ++ [o]) st
  end.

(** What the constructor establishes and every operation keeps: the
    store refers to an object of the heap that has a truthy client. *)
Definition wf (st : state) : Prop :=
  ∃ l, store st = VObj l ∧ (l < length (objects st))%nat
       ∧ truthy (get (objects st) (VObj l) "client") = true.

Definition run (os : list op) (st : state) : state := foldl apply st os.

End ClassMixin.

(* ===================================================================== *)
(** ** The class based revision: the asynchronous [close] and [isHealthy] *)
(* ===================================================================== *)

Module ClassAsync.

Import Closure.

(** One instance of [DapiClientWrapper] over time: the instance and its
    heap, the record of the calls of user functions, the user promises that
    have settled, and what the [async] methods leave behind: the promises
    that [close] returned, by number, with their state; the calls of
    [close] suspended at their [await] on a pending promise (promise
    awaited, promise returned); and the queue of the continuations that
    are ready to run, each with what its [await] yields. *)
Record world := {
  self : ClassMixin.state;
  log : list call;
  settled : gmap nat settlement;
  promises : list (option settlement);
  waiting : list (nat * nat);
  jobs : list (nat * settlement)
}.

Definition start (st : ClassMixin.state) : world :=
  {| self := st; log := []; settled := ∅; promises := []; waiting := [];
     jobs := [] |}.

Definition with_self (st : ClassMixin.state) (w : world) : world :=
  {| self := st; log := log w; settled := settled w; promises := promises w;
     waiting := waiting w; jobs := jobs w |}.

(** [this._status = s] *)
Definition set_status (s : ClientStatus) (w : world) : world :=
  with_self {| ClassMixin.objects := ClassMixin.objects (self w);
               ClassMixin._status := s;
               ClassMixin._close := ClassMixin._close (self w);
               ClassMixin._isHealthy := ClassMixin._isHealthy (self w);
               ClassMixin.store := ClassMixin.store (self w) |} w.

Definition record (c : call) (w : world) : world :=
  {| self := self w; log := log w ++ [c]; settled := settled w;
     promises := promises w; waiting := waiting w; jobs := jobs w |}.

(** The promise of a call of an [async] method that has run to its end,
    or has thrown, before any [await]. *)
Definition finished (o : settlement) (w : world) : nat * world :=
  (length (promises w),
   {| self := self w; log := log w; settled := settled w;
      promises := promises w ++ [Some o]; waiting := waiting w; jobs := jobs w |}).

(** [await v] on a value that is no promise: the call returns its pending
    promise and the continuation is queued. *)
Definition await_value (v : value) (w : world) : nat * world :=
  let d := length (promises w) in
  (d,
   {| self := self w; log := log w; settled := settled w;
      promises := promises w ++ [None]; waiting := waiting w;
      jobs := jobs w ++ [(d, Fulfilled v)] |}).

(** [await p] on a promise of the user: the continuation is queued when
    the promise has settled already, and waits for it otherwise. *)
Definition await_promise (p : nat) (w : world) : nat * world :=
  let d := length (promises w) in
  (d,
   match settled w !! p with
   | Some o =>
       {| self := self w; log := log w; settled := settled w;
          promises := promises w ++ [None]; waiting := waiting w;
          jobs := jobs w ++ [(d, o)] |}
   | None =>
       {| self := self w; log := log w; settled := settled w;
          promises := promises w ++ [None]; waiting := waiting w ++ [(p, d)];
          jobs := jobs w |}
   end).

(** What the promise returned by [isHealthy] is: settled from the start,
    or resolved with a promise of the user, which it then follows. *)
Inductive answer :=
  | Settled (o : settlement)
  | Follows (p : nat).

Definition not_a_function (name : string) : exn :=
  TypeError ("this." +:+ name +:+ " is not a function") None.

Section Operations.

Variable behaviour : nat → nat → list arg → outcome.

(** [async close({delay} = {})]; the value returned is the number of the
    promise that the call returns.  A throw inside the body rejects that
    promise. *)
Definition close (delay : value) (w : world) : nat * world :=
  if decide (ClassMixin._status (self w) ≠ OPEN) then finished (Fulfilled VUndefined) w
  else if truthy (ClassMixin._close (self w)) then
    let w := set_status CLOSING w in
    match ClassMixin._close (self w) with
    | VFun f =>
        let deps := ClassMixin.getDependencies (self w) in
        let response := behaviour f (length (log w)) [Arg deps; Opts delay] in
        let w := record {| via := CloseFn; callee := f; this := 0;
                           args := [Arg deps; Opts delay];
                           status_on_entry := ClassMixin._status (self w) |} w in
        match response with
        | Throws e => finished (Rejected e) w
        | Returns v => await_value v w
        | ReturnsPromise p => await_promise p w
        end
    | _ => finished (Rejected (not_a_function "_close")) w
    end
  else finished (Fulfilled VUndefined) (set_status CLOSED w).

Definition status (w : world) : ClientStatus := ClassMixin.status (self w).

(** [async isHealthy()] *)
Definition isHealthy (w : world) : answer * world :=
  if decide (ClassMixin._status (self w) ≠ OPEN)
  then (Settled (Fulfilled (VBool false)), w)
  else if truthy (ClassMixin._isHealthy (self w)) then
    match ClassMixin._isHealthy (self w) with
    | VFun f =>
        let deps := ClassMixin.getDependencies (self w) in
        (match behaviour f (length (log w)) [Arg deps] with
         | Returns v => Settled (Fulfilled v)
         | ReturnsPromise p => Follows p
         | Throws e => Settled (Rejected e)
         end,
         record {| via := IsHealthyFn; callee := f; this := 0;
                   args := [Arg deps];
                   status_on_entry := ClassMixin._status (self w) |} w)
    | _ => (Settled (Rejected (not_a_function "_isHealthy")), w)
    end
  else (Settled (Fulfilled (VBool true)), w).

(** A user promise settles, once; the calls of [close] that wait for it
    become ready. *)
Definition settle (p : nat) (o : settlement) (w : world) : world :=
  match settled w !! p with
  | Some _ => w
  | None =>
      {| self := self w; log := log w; settled := <[p := o]> (settled w);
         promises := promises w;
         waiting := filter (λ r, r.1 ≠ p) (waiting w);
         jobs := jobs w ++ ((λ r, (r.2, o)) <$> filter (λ r, r.1 = p) (waiting w)) |}
  end.

(** The next continuation runs: after a fulfilled [await] the body of
    [close] goes on with [this._status = CLOSED] and ends; a rejected
    [await] throws, which rejects the promise of the call. *)
Definition tick (w : world) : world :=
  match jobs w with
  | [] => w
  | (d, Fulfilled _) :: js =>
      let w := set_status CLOSED w in
      {| self := self w; log := log w; settled := settled w;
         promises := <[d := Some (Fulfilled VUndefined)]> (promises w);
         waiting := waiting w; jobs := js |}
  | (d, Rejected e) :: js =>
      {| self := self w; log := log w; settled := settled w;
         promises := <[d := Some (Rejected e)]> (promises w);
         waiting := waiting w; jobs := js |}
  end.

(** What can happen to the instance. *)
Inductive event :=
  | Close (delay : value)
  | IsHealthy
  | Store (o : ClassMixin.op)
  | Settle (p : nat) (o : settlement)
  | Tick.

Definition step (w : world) (e : event) : world :=
  match e with
  | Close delay => (close delay w).2
  | IsHealthy => (isHealthy w).2
  | Store o => with_self (ClassMixin.apply (self w) o) w
  | Settle p o => settle p o w
  | Tick => tick w
  end.

Definition run (es : list event) (w : world) : world := foldl step w es.

(** The worlds of an instance that was constructed, hence [OPEN], and
    then lived. *)
Definition reachable (w : world) : Prop :=
  ∃ st es, ClassMixin._status st = OPEN ∧ w = run es (start st).

Definition drain (w : world) : world := run (replicate (length (jobs w)) Tick) w.

(** What holds of every reachable world: continuations wait or are
    ready only while the status is [CLOSING], one at most, and wait only
    on a promise that has not settled; the user's close function has been
    called once at most, and not before the status has left [OPEN]. *)
Definition inv (w : world) : Prop :=
  (ClassMixin._status (self w) = OPEN → close_calls (log w) = 0%nat)
  ∧ (close_calls (log w) ≤ 1)%nat
  ∧ (ClassMixin._status (self w) ≠ CLOSING → waiting w = [] ∧ jobs w = [])
  ∧ (length (waiting w) + length (jobs w) ≤ 1)%nat
  ∧ (∀ r, r ∈ waiting w → settled w !! r.1 = None).

(** A failed shutdown. *)
Definition stuck (w : world) : Prop :=
  ClassMixin._status (self w) = CLOSING ∧ waiting w = []
  ∧ Forall (λ j : nat * settlement, ∃ e, j.2 = Rejected e) (jobs w).

(** The course of a call of [close] that is suspended at its [await]:
    waiting for the promise [p], ready with what the [await] yields, then
    ended, by a rejection with the status left [CLOSING] or by a fulfilment
    with the status [CLOSED].  [p] is [None] when the [await] was on a
    value that is no promise, which is ready from the start. *)
Inductive tracks (p : option nat) (d : nat) (w : world) : Prop :=
  | tracks_waiting q :
      p = Some q →
      ClassMixin._status (self w) = CLOSING → settled w !! q = None →
      waiting w = [(q, d)] → jobs w = [] → promises w !! d = Some None →
      tracks p d w
  | tracks_ready o :
      (∀ q, p = Some q → settled w !! q = Some o) →
      (p = None → ∃ v, o = Fulfilled v) →
      ClassMixin._status (self w) = CLOSING →
      waiting w = [] → jobs w = [(d, o)] → promises w !! d = Some None →
      tracks p d w
  | tracks_rejected e :
      (∃ q, p = Some q ∧ settled w !! q = Some (Rejected e)) →
      ClassMixin._status (self w) = CLOSING →
      waiting w = [] → jobs w = [] →
      promises w !! d = Some (Some (Rejected e)) →
      tracks p d w
  | tracks_closed :
      (∀ q, p = Some q → ∃ v, settled w !! q = Some (Fulfilled v)) →
      ClassMixin._status (self w) = CLOSED →
      waiting w = [] → jobs w = [] →
      promises w !! d = Some (Some (Fulfilled VUndefined)) →
      tracks p d w.

(** Two worlds with the same status and the same asynchronous part, but
    for promises that the second has and the first has not. *)
Definition same_async (w w' : world) : Prop :=
  ClassMixin._status (self w') = ClassMixin._status (self w)
  ∧ settled w' = settled w ∧ waiting w' = waiting w ∧ jobs w' = jobs w
  ∧ ∀ d x, promises w !! d = Some x → promises w' !! d = Some x.

End Operations.

End ClassAsync.

(* ===================================================================== *)
(** ** Sample definitions, heaps and instances *)
(* ===================================================================== *)

Module Samples.

(** Two definitions with a client, no overrides and a label; the bundle
    of the first also has the key [status], that of the second the key
    [close] with the value [false]. *)
Definition heap_status : heap :=
  [ {[ "client" := VObj 1; "status" := VStr "open" ]}; ∅; ∅ ].

Definition heap_close_false : heap :=
  [ {[ "client" := VObj 1; "close" := VBool false ]}; ∅; ∅ ].

Definition plain : definition :=
  {| def_close := VUndefined; def_isHealthy := VUndefined;
     def_dependencies := VObj 0; def_fns := VObj 2; def_type := VStr "test" |}.

(** Bundles that do carry a truthy reserved key, and one that has the key
    [status] and nothing else. *)
Definition heap_close_fn : heap :=
  [ {[ "client" := VObj 1; "close" := VFun 3 ]}; ∅; ∅ ].

Definition heap_status_only : heap :=
  [ {[ "status" := VStr "open" ]}; ∅; ∅ ].

(** A definition whose [fns] uses the three reserved names. *)
Definition heap_reserved_fns : heap :=
  [ {[ "client" := VObj 1 ]}; ∅;
    {[ "close" := VFun 7; "isHealthy" := VFun 8; "status" := VFun 9;
       "echo" := VFun 10 ]} ].

Definition heap_plain : heap := [ {[ "client" := VObj 1 ]}; ∅; ∅ ].

(** The class of a definition without overrides and without commands, and
    one with both overrides. *)
Definition no_overrides : Closure.mixin :=
  {| Closure._close := VUndefined; Closure._isHealthy := VUndefined;
     Closure.dependencies := VObj 0; Closure.fns := merged_fns ∅ |}.

Definition both_overrides : Closure.mixin :=
  {| Closure._close := VFun 5; Closure._isHealthy := VFun 6;
     Closure.dependencies := VObj 0; Closure.fns := merged_fns ∅ |}.

Definition reserved_fns : Closure.mixin :=
  {| Closure._close := VUndefined; Closure._isHealthy := VUndefined;
     Closure.dependencies := VObj 0;
     Closure.fns := merged_fns (spread heap_reserved_fns (VObj 2)) |}.

(** User functions: all return [undefined]; the close function [5] fails
    at once; it returns the promise [0]; the health check [6] says [true]. *)
Definition quiet : nat → nat → list Closure.arg → Closure.outcome :=
  λ _ _ _, Closure.Returns VUndefined.

Definition failed_to_close : exn := UserError (VStr "Failed to close").

Definition close_throws : nat → nat → list Closure.arg → Closure.outcome :=
  λ f _ _, if Nat.eqb f 5 then Closure.Throws failed_to_close
           else Closure.Returns (VBool true).

Definition close_async : nat → nat → list Closure.arg → Closure.outcome :=
  λ f _ _, if Nat.eqb f 5 then Closure.ReturnsPromise 0
           else Closure.Returns (VBool true).

(** One instance, just made. *)
Definition one_instance (m : Closure.mixin) : Closure.world :=
  Closure.new m Closure.fresh.

(** The faulty definitions of the test suite: no dependencies; the bundle
    [{}]; no [fns]; [fns: {foo: null}]; and overrides that are no
    functions. *)
Definition no_dependencies : definition :=
  {| def_close := VUndefined; def_isHealthy := VUndefined;
     def_dependencies := VUndefined; def_fns := VObj 2; def_type := VStr "test" |}.

Definition heap_empty_bundle : heap := [ ∅; ∅; ∅ ].

Definition no_fns : definition :=
  {| def_close := VUndefined; def_isHealthy := VUndefined;
     def_dependencies := VObj 0; def_fns := VUndefined; def_type := VStr "test" |}.

Definition heap_null_fn : heap :=
  [ {[ "client" := VObj 1 ]}; ∅; {[ "foo" := VNull ]} ].

Definition close_is_a_string : definition :=
  {| def_close := VStr "quit"; def_isHealthy := VNum 1;
     def_dependencies := VUndefined; def_fns := VUndefined; def_type := VUndefined |}.

Definition isHealthy_is_a_number : definition :=
  {| def_close := VNull; def_isHealthy := VNum 1;
     def_dependencies := VUndefined; def_fns := VUndefined; def_type := VUndefined |}.

(** Overrides that are falsy without being [undefined]. *)
Definition null_overrides : definition :=
  {| def_close := VNull; def_isHealthy := VNum 0;
     def_dependencies := VObj 0; def_fns := VObj 2; def_type := VStr "test" |}.

(** The objects made by [bind] in the constructor of the class based
    revision. *)
Definition bound_ids (name : string) : nat :=
  if String.eqb name "close" then 20
  else if String.eqb name "isHealthy" then 21 else 22.

Definition heap_two_keys : heap :=
  [ {[ "client" := VObj 1; "opts" := VObj 2 ]}; ∅; ∅ ].

(** The instance the constructor makes of it, and the same with one more
    object in the heap, a client to come. *)
Definition wrapped : ClassMixin.state :=
  {| ClassMixin.objects :=
       heap_two_keys
       ++ [ <["status" := VFun 22]>
              (<["isHealthy" := VFun 21]>
                 (<["close" := VFun 20]> {[ "client" := VObj 1; "opts" := VObj 2 ]})) ];
     ClassMixin._status := OPEN;
     ClassMixin._close := VUndefined;
     ClassMixin._isHealthy := VUndefined;
     ClassMixin.store := VObj 3 |}.

Definition wrapped_and_spare : ClassMixin.state :=
  ClassMixin.apply wrapped (ClassMixin.Allocate ∅).

(** The same instance with a close function and a health check, at the
    start of its life. *)
Definition wrapped_with_overrides : ClassMixin.state :=
  {| ClassMixin.objects := ClassMixin.objects wrapped;
     ClassMixin._status := OPEN;
     ClassMixin._close := VFun 5;
     ClassMixin._isHealthy := VFun 6;
     ClassMixin.store := VObj 3 |}.

Definition close_sync : nat → nat → list Closure.arg → Closure.outcome :=
  λ _ _ _, Closure.Returns (VStr "done").

(** The definition behind [both_overrides], and user functions of which
    the health check [6] answers with the promise [1]. *)
Definition with_overrides : definition :=
  {| def_close := VFun 5; def_isHealthy := VFun 6;
     def_dependencies := VObj 0; def_fns := VObj 2; def_type := VStr "test" |}.

Definition health_async : nat → nat → list Closure.arg → Closure.outcome :=
  λ f _ _, if Nat.eqb f 6 then Closure.ReturnsPromise 1
           else Closure.Returns VUndefined.

(** A bundle whose [status] is there but falsy, and one more key. *)
Definition heap_blank_status : heap :=
  [ {[ "client" := VObj 1; "status" := VStr ""; "opts" := VNum 3 ]}; ∅; ∅ ].

End Samples.

(* ===================================================================== *)
(** ** The definition validator *)
(* ===================================================================== *)

Module Validation.

Import Samples.

Lemma throws_when_inl c e e' : throws_when c e = inl e' → c = true ∧ e' = e.
Proof. destruct c; simpl; [intros [= <-]; done | done]. Qed.

Lemma throws_when_false e : throws_when false e = inr tt.
Proof. done. Qed.

Lemma throws_when_true e : throws_when true e = inl e.
Proof. done. Qed.

Ltac validation_case :=
  match goal with
  | |- context [throws_when ?c ?e] =>
      let E := fresh "E" in
      destruct c eqn:E; [rewrite throws_when_true | rewrite throws_when_false]
  end.

(** Whatever the current validator throws is a [TypeError]. *)
Lemma current_validator_TypeError h d e :
  Closure.validateDefinition h d = inl e → is_TypeError e = true.
Proof.
  unfold Closure.validateDefinition. cbv zeta.
  repeat (validation_case; [intros [= <-]; done |]).
  destruct (def_fns d); try (intros [= <-]; done).
  validation_case; [intros [= <-]; done | done].
Qed.

Lemma current_mixin_TypeError h d e :
  Closure.DapiClientMixin h d = inl e → is_TypeError e = true.
Proof.
  unfold Closure.DapiClientMixin.
  destruct (Closure.validateDefinition h d) eqn:V.
  - intros [= <-]. by eapply current_validator_TypeError.
  - unfold DapiMixin_validate. validation_case; [intros [= <-]; done | done].
Qed.

Lemma bundle_validator_TypeError h d e :
  Bundle.validateDefinition h d = inl e → is_TypeError e = true.
Proof.
  unfold Bundle.validateDefinition. cbv zeta.
  repeat (validation_case; [intros [= <-]; done |]).
  destruct (Bundle.read h (def_dependencies d) "close") eqn:R.
  - unfold Bundle.read in R. intros [= <-].
    destruct (def_dependencies d); by simplify_eq.
  - validation_case; [intros [= <-]; done | done].
Qed.

Lemma bundle_mixin_TypeError h d e :
  Bundle.DapiClientMixin h d = inl e → is_TypeError e = true.
Proof.
  unfold Bundle.DapiClientMixin.
  destruct (Bundle.validateDefinition h d) eqn:V.
  - intros [= <-]. by eapply bundle_validator_TypeError.
  - unfold DapiMixin_validate. validation_case; [intros [= <-]; done | done].
Qed.

(** A truthy [close] or [isHealthy] in the bundle stops the current validator. *)
Lemma current_validator_reserved h d :
  truthy (get h (def_dependencies d) "close")
  || truthy (get h (def_dependencies d) "isHealthy") = true →
  ∃ e, Closure.validateDefinition h d = inl e.
Proof.
  intros T. unfold Closure.validateDefinition. cbv zeta.
  repeat (validation_case; [by eexists |]).
  congruence.
Qed.

(** A bundle without a truthy [client] stops the current validator. *)
Lemma current_validator_client h d :
  truthy (get h (def_dependencies d) "client") = false →
  ∃ e, Closure.validateDefinition h d = inl e.
Proof.
  intros T. unfold Closure.validateDefinition. cbv zeta.
  repeat (validation_case; [by eexists |]).
  rewrite T in *. done.
Qed.

Lemma bundle_validator_reserved h d :
  truthy (get h (def_dependencies d) "close")
  || truthy (get h (def_dependencies d) "isHealthy")
  || truthy (get h (def_dependencies d) "status") = true →
  ∃ e, Bundle.validateDefinition h d = inl e.
Proof.
  intros T. unfold Bundle.validateDefinition. cbv zeta.
  repeat (validation_case; [by eexists |]).
  destruct (Bundle.read h (def_dependencies d) "close"); [by eexists |].
  validation_case; [by eexists | congruence].
Qed.

Lemma current_mixin_of_validator h d e :
  Closure.validateDefinition h d = inl e → Closure.DapiClientMixin h d = inl e.
Proof. unfold Closure.DapiClientMixin. by intros ->. Qed.

Lemma bundle_mixin_of_validator h d e :
  Bundle.validateDefinition h d = inl e → Bundle.DapiClientMixin h d = inl e.
Proof. unfold Bundle.DapiClientMixin. by intros ->. Qed.

(** C1, as the spec words it, fails on the current validator: a bundle with a
    client and the key [status] is accepted, and so is, by both revisions,
    a bundle whose key [close] holds [false]. *)
Lemma reserved_key_accepted :
  (is_Some (deref heap_status 0 !! "status")
   ∧ ∃ m, Closure.DapiClientMixin heap_status plain = inr m)
  ∧ (is_Some (deref heap_close_false 0 !! "close")
     ∧ (∃ m, Closure.DapiClientMixin heap_close_false plain = inr m)
     ∧ (∃ m, Bundle.DapiClientMixin heap_close_false plain = inr m)).
Proof.
  repeat split; try (by eexists); eexists; vm_compute; reflexivity.
Qed.

(** C1 (amended).  A definition whose dependency bundle holds a truthy
    value under [close] or [isHealthy] makes [DapiClientMixin] throw a
    [TypeError], so that no class and no instance is produced; the revision
    that keeps the status in the bundle rejects a truthy [status] in the
    same way, the current one does not look at [status]; and a bundle whose
    only key is [status] is rejected by the current revision, with a
    [TypeError], whatever the value. *)
Theorem reserved_keys_rejected (h : heap) (d : definition) :
  (truthy (get h (def_dependencies d) "close")
   || truthy (get h (def_dependencies d) "isHealthy") = true →
   ∃ e, Closure.DapiClientMixin h d = inl e ∧ is_TypeError e = true)
  ∧ (truthy (get h (def_dependencies d) "close")
     || truthy (get h (def_dependencies d) "isHealthy")
     || truthy (get h (def_dependencies d) "status") = true →
     ∃ e, Bundle.DapiClientMixin h d = inl e ∧ is_TypeError e = true)
  ∧ (∀ l v, def_dependencies d = VObj l → deref h l = {[ "status" := v ]} →
     ∃ e, Closure.DapiClientMixin h d = inl e ∧ is_TypeError e = true).
Proof.
  split; [| split].
  - intros T. destruct (current_validator_reserved h d T) as [e He].
    exists e. split; [by apply current_mixin_of_validator |].
    by eapply current_validator_TypeError.
  - intros T. destruct (bundle_validator_reserved h d T) as [e He].
    exists e. split; [by apply bundle_mixin_of_validator |].
    by eapply bundle_validator_TypeError.
  - intros l v Hd Ho.
    destruct (current_validator_client h d) as [e He].
    { rewrite Hd. simpl. rewrite Ho. by rewrite lookup_singleton_ne. }
    exists e. split; [by apply current_mixin_of_validator |].
    by eapply current_validator_TypeError.
Qed.

Lemma reserved_keys_rejected_witness :
  (∃ e, Closure.DapiClientMixin heap_close_fn plain = inl e ∧ is_TypeError e = true)
  ∧ (∃ e, Bundle.DapiClientMixin heap_status plain = inl e ∧ is_TypeError e = true)
  ∧ (∃ e, Closure.DapiClientMixin heap_status_only plain = inl e
          ∧ is_TypeError e = true).
Proof.
  split; [| split].
  - apply (proj1 (reserved_keys_rejected heap_close_fn plain)). vm_compute. reflexivity.
  - apply (proj1 (proj2 (reserved_keys_rejected heap_status plain))).
    vm_compute. reflexivity.
  - apply (proj2 (proj2 (reserved_keys_rejected heap_status_only plain)) 0 (VStr "open"));
      reflexivity.
Defined.

End Validation.

(* ===================================================================== *)
(** ** The lifecycle of the current revision *)
(* ===================================================================== *)

Module Lifecycle.

Import Closure.

Local Open Scope nat_scope.

Section WithMixin.

Variable behaviour : nat → nat → list arg → outcome.
Variable m : mixin.

Local Abbreviation close := (close behaviour m).
Local Abbreviation isHealthy := (isHealthy behaviour m).
Local Abbreviation invoke := (invoke behaviour m).
Local Abbreviation step := (step behaviour m).
Local Abbreviation run := (run behaviour m).
Local Abbreviation reachable := (reachable behaviour m).
Local Abbreviation drain := (drain behaviour m).
Local Abbreviation inv := (inv m).
Local Abbreviation commands_from_fns := (commands_from_fns m).

(** *** Runs *)

Lemma run_app es1 es2 w : run (es1 ++ es2) w = run es2 (run es1 w).
Proof. apply foldl_app. Qed.

Lemma run_snoc es e w : run (es ++ [e]) w = step (run es w) e.
Proof. by rewrite run_app. Qed.

Lemma reachable_fresh : reachable fresh.
Proof. by exists []. Qed.

Lemma reachable_run es w : reachable w → reachable (run es w).
Proof. intros [es0 ->]. exists (es0 ++ es). by rewrite run_app. Qed.

(** Induction along a run. *)
Lemma run_ind (P : world → Prop) (w : world) :
  P w → (∀ w' e, P w' → P (step w' e)) → ∀ es, P (run es w).
Proof.
  intros H0 HS es. induction es as [| e es IH] using rev_ind; [done |].
  rewrite run_snoc. by apply HS.
Qed.

(** *** The call record *)

Lemma close_calls_snoc l c :
  close_calls (l ++ [c]) = close_calls l + (if decide (via c = CloseFn) then 1 else 0).
Proof.
  unfold close_calls. rewrite filter_app, length_app. f_equal.
  rewrite filter_cons, filter_nil. by case_decide.
Qed.

(** *** What [close] does, case by case *)

Lemma close_not_open i deps delay w :
  _status w ≠ OPEN → close i deps delay w = (Returned VUndefined, w).
Proof. intros H. unfold Closure.close. by rewrite decide_True. Qed.

Lemma close_no_override i deps delay w :
  _status w = OPEN → is_function (_close m) = false →
  close i deps delay w = (Returned VUndefined, set_status CLOSED w).
Proof.
  intros H F. unfold Closure.close. rewrite decide_False by (by rewrite H; auto).
  by destruct (_close m).
Qed.

Lemma close_override i deps delay w f :
  _status w = OPEN → _close m = VFun f →
  close i deps delay w =
    let c := {| via := CloseFn; callee := f; this := i;
                args := [Arg deps; Opts delay]; status_on_entry := CLOSING |} in
    let w1 := record c (set_status CLOSING w) in
    match behaviour f (length (log w)) [Arg deps; Opts delay] with
    | Throws e => (Threw e, w1)
    | ReturnsPromise p => response_then p w1
    | Returns _ => (Returned VUndefined, set_status CLOSED w1)
    end.
Proof.
  intros H F. unfold Closure.close. rewrite decide_False by (by rewrite H; auto).
  by rewrite F.
Qed.

Lemma isHealthy_not_open i deps w :
  _status w ≠ OPEN → isHealthy i deps w = (Returned (VBool false), w).
Proof. intros H. unfold Closure.isHealthy. by rewrite decide_True. Qed.

Lemma isHealthy_no_override i deps w :
  _status w = OPEN → is_function (_isHealthy m) = false →
  isHealthy i deps w = (Returned (VBool true), w).
Proof.
  intros H F. unfold Closure.isHealthy. rewrite decide_False by (by rewrite H; auto).
  by destruct (_isHealthy m).
Qed.

Lemma isHealthy_override i deps w f :
  _status w = OPEN → _isHealthy m = VFun f →
  isHealthy i deps w =
    (result_of (behaviour f (length (log w)) [Arg deps]),
     record {| via := IsHealthyFn; callee := f; this := i; args := [Arg deps];
               status_on_entry := OPEN |} w).
Proof.
  intros H F. unfold Closure.isHealthy. rewrite decide_False by (by rewrite H; auto).
  by rewrite F, H.
Qed.

(** *** The invariant *)

Lemma inv_fresh : inv fresh.
Proof.
  unfold Closure.inv. simpl. repeat split; try done; lia.
Qed.

Lemma inv_record c w : via c ≠ CloseFn → inv w → inv (record c w).
Proof.
  intros Hc (I1 & I2 & I3 & I4 & I5). unfold Closure.inv. simpl.
  rewrite close_calls_snoc, decide_False by done.
  rewrite Nat.add_0_r. done.
Qed.

Lemma inv_close i deps delay w : inv w → inv (close i deps delay w).2.
Proof.
  intros I. destruct (decide (_status w = OPEN)) as [O | O];
    [| by rewrite close_not_open].
  destruct I as (I1 & I2 & I3 & I4 & I5).
  destruct (I3 ltac:(by rewrite O)) as [R J].
  destruct (_close m) as [| | | | | | |f] eqn:F;
    try (rewrite close_no_override by (by rewrite ?F);
         unfold Closure.inv; simpl; rewrite F, I1 by done; by repeat split).
  rewrite (close_override _ _ _ _ f) by done. cbv zeta.
  destruct (behaviour f _ _) as [v | p | e]; unfold Closure.inv; simpl.
  - rewrite close_calls_snoc, F, I1 by done. simpl. by repeat split.
  - unfold response_then. simpl. destruct (settled w !! p) eqn:S; simpl;
      rewrite close_calls_snoc, F, I1, R, J by done; simpl;
      repeat split; try done; try lia.
    + intros r Hr. by apply elem_of_nil in Hr.
    + intros r Hr. apply list_elem_of_singleton in Hr. by subst.
  - rewrite close_calls_snoc, F, I1, R, J by done. simpl.
    repeat split; try done; try lia.
    intros r Hr. by apply elem_of_nil in Hr.
Qed.

Lemma inv_isHealthy i deps w : inv w → inv (isHealthy i deps w).2.
Proof.
  intros I. unfold Closure.isHealthy. case_decide; [done |].
  destruct (_isHealthy m); try done. simpl. by apply inv_record.
Qed.

Lemma inv_invoke i name args w : inv w → inv (invoke i name args w).2.
Proof.
  intros I. unfold Closure.invoke.
  destruct (instances w !! i) as [deps |]; [| done].
  destruct (fns m !! name) as [[v | | |] |]; try done.
  - destruct v; try done. simpl. by apply inv_record.
  - by apply inv_close.
  - by apply inv_isHealthy.
Qed.

Lemma inv_settle p o w : inv w → inv (settle p o w).
Proof.
  intros I. pose proof I as (I1 & I2 & I3 & I4 & I5). unfold settle.
  destruct (settled w !! p) eqn:S; [done |].
  unfold Closure.inv. simpl. split_and!.
  - exact I1.
  - exact I2.
  - intros N. destruct (I3 N) as [R J]. by rewrite R, J.
  - rewrite length_app, length_fmap.
    destruct (reactions w) as [| r [| r' rs]]; simpl in I4 |- *; [lia | | lia].
    rewrite !filter_cons, !filter_nil. repeat case_decide; simpl; lia || done.
  - intros r Hr. apply list_elem_of_filter in Hr as [Hne Hr].
    rewrite lookup_insert_ne by done. by apply I5.
Qed.

Lemma inv_tick w : inv w → inv (tick w).
Proof.
  intros I. pose proof I as (I1 & I2 & I3 & I4 & I5). unfold tick.
  destruct (jobs w) as [| [d [v | e]] js] eqn:J; [done | |].
  - assert (_status w = CLOSING) as C.
    { destruct (decide (_status w = CLOSING)) as [| N]; [done |].
      by destruct (I3 N). }
    simpl in I4. unfold Closure.inv. simpl. split_and!.
    + done.
    + intros _. apply I2. by rewrite C.
    + intros _. split.
      * destruct (reactions w); [done | simpl in I4; lia].
      * destruct js; [done | simpl in I4; lia].
    + lia.
    + exact I5.
  - simpl in I4. unfold Closure.inv. simpl. split_and!.
    + exact I1.
    + exact I2.
    + intros N. by destruct (I3 N).
    + lia.
    + exact I5.
Qed.

Lemma inv_new w : inv w → inv (new m w).
Proof. done. Qed.

Lemma inv_step w e : inv w → inv (step w e).
Proof.
  destruct e; simpl.
  - apply inv_new.
  - apply inv_invoke.
  - apply inv_settle.
  - apply inv_tick.
Qed.

Lemma inv_run es w : inv w → inv (run es w).
Proof. intros I. apply run_ind; [done |]. intros. by apply inv_step. Qed.

Lemma reachable_inv w : reachable w → inv w.
Proof. intros [es ->]. apply inv_run, inv_fresh. Qed.

(** *** The status only moves forward *)

Lemma close_status i deps delay w :
  _status (close i deps delay w).2 = _status w
  ∨ (_status w = OPEN ∧ _status (close i deps delay w).2 ≠ OPEN).
Proof.
  unfold Closure.close. case_decide; [by left |]. right.
  split; [by destruct (_status w) |].
  destruct (_close m); try done.
  destruct (behaviour _ _ _); try done.
  unfold response_then. simpl. by destruct (settled _ !! _).
Qed.

Lemma isHealthy_status i deps w : _status (isHealthy i deps w).2 = _status w.
Proof.
  unfold Closure.isHealthy. case_decide; [done |]. by destruct (_isHealthy m).
Qed.

Lemma invoke_status i name args w :
  _status (invoke i name args w).2 = _status w
  ∨ (fns m !! name = Some SynthClose ∧ _status w = OPEN
     ∧ _status (invoke i name args w).2 ≠ OPEN).
Proof.
  unfold Closure.invoke. destruct (instances w !! i) as [deps |]; [| by left].
  destruct (fns m !! name) as [[v | | |] |]; try (by left).
  - destruct v; by left.
  - destruct (close_status i deps (delay_of args) w) as [-> | [? ?]]; auto.
  - left. apply isHealthy_status.
Qed.

Lemma tick_status w :
  _status (tick w) = _status w
  ∨ (∃ d v js, jobs w = (d, Fulfilled v) :: js ∧ _status (tick w) = CLOSED).
Proof.
  unfold tick. destruct (jobs w) as [| [d [v | e]] js]; try (by left).
  right. by exists d, v, js.
Qed.

(** Only a call of the synthesized [close], or the callback it left
    behind, changes the status. *)
Lemma step_status_change w e :
  _status (step w e) ≠ _status w →
  (∃ i name args, e = Invoke i name args ∧ fns m !! name = Some SynthClose)
  ∨ e = Tick.
Proof.
  destruct e as [| i name args | p o |]; simpl; intros N.
  - done.
  - destruct (invoke_status i name args w) as [E | (F & _ & _)]; [done |].
    left. by exists i, name, args.
  - unfold settle in N. by destruct (settled w !! p).
  - by right.
Qed.

Lemma step_rank w e : rank (_status w) ≤ rank (_status (step w e)).
Proof.
  destruct e as [| i name args | p o |]; simpl.
  - done.
  - destruct (invoke_status i name args w) as [-> | (_ & O & N)]; [done |].
    rewrite O. simpl. lia.
  - unfold settle. by destruct (settled w !! p).
  - destruct (tick_status w) as [-> | (d & v & js & J & ->)]; [done |].
    destruct (_status w); simpl; lia.
Qed.

Lemma run_rank es w : rank (_status w) ≤ rank (_status (run es w)).
Proof.
  induction es as [| e es IH] using rev_ind; [done |].
  rewrite run_snoc. etrans; [exact IH |]. apply step_rank.
Qed.

Lemma closed_terminal es w : _status w = CLOSED → _status (run es w) = CLOSED.
Proof.
  intros C. pose proof (run_rank es w) as R. rewrite C in R.
  destruct (_status (run es w)); simpl in R; done || lia.
Qed.

Lemma not_open_forever es w : _status w ≠ OPEN → _status (run es w) ≠ OPEN.
Proof.
  intros N O. pose proof (run_rank es w) as R. rewrite O in R.
  destruct (_status w); simpl in R; done || lia.
Qed.

(** *** Steps that leave the promise machinery alone *)

Lemma same_async_refl w : same_async w w.
Proof. done. Qed.

Lemma close_same_async i deps delay w :
  _status w ≠ OPEN → same_async w (close i deps delay w).2.
Proof. intros N. by rewrite close_not_open. Qed.

Lemma isHealthy_same_async i deps w : same_async w (isHealthy i deps w).2.
Proof.
  unfold Closure.isHealthy. case_decide; [done |]. by destruct (_isHealthy m).
Qed.

Lemma invoke_same_async i name args w :
  _status w ≠ OPEN → same_async w (invoke i name args w).2.
Proof.
  intros N. unfold Closure.invoke.
  destruct (instances w !! i) as [deps |]; [| done].
  destruct (fns m !! name) as [[v | | |] |]; try done.
  - by destruct v.
  - by apply close_same_async.
  - apply isHealthy_same_async.
Qed.

(** *** A failed shutdown stays [CLOSING] *)

Lemma stuck_same w w' : same_async w w' → stuck w → stuck w'.
Proof.
  intros (Es & _ & Er & Ej & _) (C & R & J). unfold stuck.
  by rewrite Es, Er, Ej.
Qed.

Lemma stuck_step w e : stuck w → stuck (step w e).
Proof.
  intros S. pose proof S as (C & R & J).
  destruct e as [| i name args | p o |]; simpl.
  - done.
  - eapply stuck_same; [| done]. apply invoke_same_async. by rewrite C.
  - unfold settle. destruct (settled w !! p); [done |].
    unfold stuck. simpl. rewrite R. simpl. by rewrite app_nil_r.
  - unfold tick. destruct (jobs w) as [| [d [v | e]] js] eqn:E; [done | |].
    + apply Forall_cons in J as [[e' He'] _]. done.
    + apply Forall_cons in J as [_ J]. done.
Qed.

Lemma stuck_run es w : stuck w → _status (run es w) = CLOSING.
Proof.
  intros S. cut (stuck (run es w)); [by intros (C & _) |].
  apply run_ind; [done |]. intros. by apply stuck_step.
Qed.

(** *** The course of an asynchronous [close] *)

Lemma tracks_same p d w w' : same_async w w' → tracks p d w → tracks p d w'.
Proof.
  intros (Es & Ese & Er & Ej & Et) T.
  destruct T as [C S R J H | o C S R J H | e C S R J H | v C S R J H].
  - apply tracks_waiting; congruence.
  - apply (tracks_queued _ _ _ o); congruence.
  - apply (tracks_rejected _ _ _ e); congruence.
  - apply (tracks_closed _ _ _ v); congruence.
Qed.

Lemma tracks_not_open p d w : tracks p d w → _status w ≠ OPEN.
Proof. intros [C | o C | e C | v C]; by rewrite C. Qed.

Lemma tracks_settle p d q o w : tracks p d w → tracks p d (settle q o w).
Proof.
  intros T. unfold settle. destruct (settled w !! q) eqn:Q; [done |].
  destruct T as [C S R J H | o' C S R J H | e C S R J H | v C S R J H].
  - destruct (decide (q = p)) as [-> | N].
    + apply (tracks_queued _ _ _ o); simpl; try done.
      * by rewrite lookup_insert_eq.
      * rewrite R, filter_cons, filter_nil. simpl. by rewrite decide_False by auto.
      * rewrite R, J, filter_cons, filter_nil. simpl. by rewrite decide_True.
    + apply tracks_waiting; simpl; try done.
      * by rewrite lookup_insert_ne.
      * rewrite R, filter_cons, filter_nil. simpl. by rewrite decide_True by auto.
      * rewrite R, J, filter_cons, filter_nil. simpl. by rewrite decide_False by auto.
  - apply (tracks_queued _ _ _ o'); simpl; try done.
    + rewrite lookup_insert_ne; [done | congruence].
    + by rewrite R.
    + by rewrite R, J.
  - apply (tracks_rejected _ _ _ e); simpl; try done.
    + rewrite lookup_insert_ne; [done | congruence].
    + by rewrite R.
    + by rewrite R, J.
  - apply (tracks_closed _ _ _ v); simpl; try done.
    + rewrite lookup_insert_ne; [done | congruence].
    + by rewrite R.
    + by rewrite R, J.
Qed.

Lemma tracks_tick p d w : tracks p d (w) → tracks p d (tick w).
Proof.
  intros T. unfold tick.
  destruct T as [C S R J H | o' C S R J H | e C S R J H | v C S R J H];
    rewrite J.
  - by apply tracks_waiting.
  - pose proof (lookup_lt_Some _ _ _ H) as L. destruct o' as [v | e].
    + apply (tracks_closed _ _ _ v); simpl; try done.
      by rewrite list_lookup_insert_eq.
    + apply (tracks_rejected _ _ _ e); simpl; try done.
      by rewrite list_lookup_insert_eq.
  - by apply (tracks_rejected _ _ _ e).
  - by apply (tracks_closed _ _ _ v).
Qed.

Lemma tracks_step p d w e : tracks p d w → tracks p d (step w e).
Proof.
  intros T. destruct e as [| i name args | q o |]; simpl.
  - by eapply tracks_same; [| exact T].
  - eapply tracks_same; [| exact T].
    apply invoke_same_async. by eapply tracks_not_open.
  - by apply tracks_settle.
  - by apply tracks_tick.
Qed.

Lemma tracks_run p d es w : tracks p d w → tracks p d (run es w).
Proof. intros T. apply run_ind; [done |]. intros. by apply tracks_step. Qed.

Lemma close_promise_tracks i deps delay w f p :
  inv w → _status w = OPEN → _close m = VFun f →
  behaviour f (length (log w)) [Arg deps; Opts delay] = ReturnsPromise p →
  (close i deps delay w).1 = ReturnedPromise (ThenP (length (thens w)))
  ∧ tracks p (length (thens w)) (close i deps delay w).2.
Proof.
  intros (_ & _ & I3 & _ & _) O F B.
  destruct (I3 ltac:(by rewrite O)) as [R J].
  rewrite (close_override _ _ _ _ f) by done. cbv zeta. rewrite B.
  unfold response_then. simpl. split; [done |].
  destruct (settled w !! p) as [o |] eqn:S.
  - apply (tracks_queued _ _ _ o); simpl; try done.
    + by rewrite J.
    + by apply list_lookup_middle.
  - apply tracks_waiting; simpl; try done.
    + by rewrite R.
    + by apply list_lookup_middle.
Qed.

Lemma close_leaves_open i deps delay w :
  _status w = OPEN → _status (close i deps delay w).2 ≠ OPEN.
Proof.
  intros O. unfold Closure.close.
  rewrite decide_False by (by rewrite O; auto).
  destruct (_close m) as [| | | | | | | f]; simpl; try done.
  destruct (behaviour f _ _); simpl; try done.
  by destruct (settled _ !! _).
Qed.

Lemma after_close_not_open i deps delay es w :
  _status (run es (close i deps delay w).2) ≠ OPEN.
Proof.
  apply not_open_forever.
  destruct (decide (_status w = OPEN)) as [O | N].
  - by apply close_leaves_open.
  - by rewrite close_not_open.
Qed.

(** *** The properties of the spec *)

(** C2.  When [close] is called in state [OPEN] and the user's close
    function fails, the caller gets the same error and the status stays
    [CLOSING] for good: a synchronous throw leaves [close] by that very
    exception; when the returned promise is rejected with [e], the promise
    that [close] returned is rejected with [e] once the microtasks have
    run. *)
Theorem close_failure_leaves_closing i deps delay w f :
  reachable w → _status w = OPEN → _close m = VFun f →
  (∀ e, behaviour f (length (log w)) [Arg deps; Opts delay] = Throws e →
     (close i deps delay w).1 = Threw e
     ∧ ∀ es, _status (run es (close i deps delay w).2) = CLOSING)
  ∧ (∀ p, behaviour f (length (log w)) [Arg deps; Opts delay] = ReturnsPromise p →
     ∃ d, (close i deps delay w).1 = ReturnedPromise (ThenP d)
       ∧ ∀ es e,
           settled (run es (close i deps delay w).2) !! p = Some (Rejected e) →
           thens (drain (run es (close i deps delay w).2)) !! d
             = Some (Some (Rejected e))
           ∧ ∀ es', _status (run es' (run es (close i deps delay w).2)) = CLOSING).
Proof.
  intros Rw O F. pose proof (reachable_inv w Rw) as I. split.
  - intros e B. destruct I as (_ & _ & I3 & _ & _).
    destruct (I3 ltac:(by rewrite O)) as [R J].
    rewrite (close_override _ _ _ _ f) by done. cbv zeta. rewrite B.
    split; [done |]. intros es. apply stuck_run.
    unfold stuck. simpl. by rewrite R, J.
  - intros p B.
    destruct (close_promise_tracks i deps delay w f p I O F B) as [Er T].
    exists (length (thens w)). split; [done |]. intros es e S.
    pose proof (tracks_run _ _ es _ T) as T'.
    destruct T' as [C' S' R' J' H' | o C' S' R' J' H' | e' C' S' R' J' H'
                   | v C' S' R' J' H']; rewrite S' in S; simplify_eq.
    + split.
      * unfold Closure.drain. rewrite J'. simpl. unfold tick. rewrite J'. simpl.
        apply list_lookup_insert_eq. by eapply lookup_lt_Some.
      * intros es'. apply stuck_run. unfold stuck. rewrite C', R', J'.
        split_and!; try done. apply Forall_cons. split; [by eexists | done].
    + split.
      * unfold Closure.drain. by rewrite J'.
      * intros es'. apply stuck_run. unfold stuck. by rewrite C', R', J'.
Qed.

(** C3.  Whenever [close] is called in state [OPEN], the status has left
    [OPEN] when the call returns, and the user's close function, when
    there is one, was entered with the status [CLOSING] already; and when
    the call returns a promise, it is because that function returned one,
    the status is [CLOSING] on return and, as long as that promise has not
    settled, [status] reads [CLOSING] and [isHealthy] returns [false]
    without calling anything. *)
Theorem closing_before_async_work i deps delay w :
  reachable w → _status w = OPEN →
  status (close i deps delay w).2 ≠ OPEN
  ∧ (∀ f, _close m = VFun f →
     ∃ c, last (log (close i deps delay w).2) = Some c
          ∧ via c = CloseFn ∧ callee c = f ∧ status_on_entry c = CLOSING)
  ∧ (∀ q, (close i deps delay w).1 = ReturnedPromise q →
     ∃ f p, _close m = VFun f
       ∧ behaviour f (length (log w)) [Arg deps; Opts delay] = ReturnsPromise p
       ∧ status (close i deps delay w).2 = CLOSING
       ∧ ∀ es, settled (run es (close i deps delay w).2) !! p = None →
           status (run es (close i deps delay w).2) = CLOSING
           ∧ ∀ j deps',
               isHealthy j deps' (run es (close i deps delay w).2)
               = (Returned (VBool false), run es (close i deps delay w).2)).
Proof.
  intros Rw O. pose proof (reachable_inv w Rw) as I. split_and!.
  - by apply close_leaves_open.
  - intros f F. rewrite (close_override _ _ _ _ f) by done. cbv zeta.
    exists {| via := CloseFn; callee := f; this := i;
              args := [Arg deps; Opts delay]; status_on_entry := CLOSING |}.
    split; [| done].
    destruct (behaviour _ _ _); simpl; try apply last_snoc.
    destruct (settled _ !! _); simpl; apply last_snoc.
  - intros q Hq.
    assert (∃ f p, _close m = VFun f
              ∧ behaviour f (length (log w)) [Arg deps; Opts delay]
                = ReturnsPromise p) as (f & p & F & B).
    { revert Hq. unfold Closure.close. case_decide as N; [done |].
      destruct (_close m) as [| | | | | | | f] eqn:F; try done.
      destruct (behaviour f _ _) as [v | p | e] eqn:B; try done.
      intros _. exists f, p. split; [done |]. by rewrite <- B. }
    exists f, p. split; [done |]. split; [done |].
    destruct (close_promise_tracks i deps delay w f p I O F B) as [_ T].
    assert (∀ es, settled (run es (close i deps delay w).2) !! p = None →
                  _status (run es (close i deps delay w).2) = CLOSING) as K.
    { intros es S. pose proof (tracks_run _ _ es _ T) as T'.
      destruct T' as [C' | o C' S' | e' C' S' | v C' S']; [done | | |];
        rewrite S' in S; done. }
    split.
    + rewrite (close_override _ _ _ _ f) by done. cbv zeta. rewrite B.
      unfold status, response_then. simpl. by destruct (settled _ !! _).
    + intros es S. split; [by apply K |].
      intros j deps'. apply isHealthy_not_open. by rewrite K.
Qed.

(** X25.  [close] is idempotent per class: a call made when the status
    is not [OPEN] returns [undefined] at once and changes nothing; and
    once a first call has been made while the status of the class is
    [OPEN], with a user close function, that function has been called
    exactly once, and so it stays whatever happens next, a further [close]
    on any instance included, be the first one pending or done. *)
Theorem close_idempotent i deps delay w :
  (_status w ≠ OPEN → close i deps delay w = (Returned VUndefined, w))
  ∧ (reachable w → _status w = OPEN → is_function (_close m) = true →
     close_calls (log w) = 0
     ∧ close_calls (log (close i deps delay w).2) = 1
     ∧ ∀ es j deps' delay',
         close j deps' delay' (run es (close i deps delay w).2)
         = (Returned VUndefined, run es (close i deps delay w).2)
         ∧ close_calls (log (run es (close i deps delay w).2)) = 1).
Proof.
  split; [apply close_not_open |].
  intros Rw O F. pose proof (reachable_inv w Rw) as I.
  pose proof (inv_close i deps delay w I) as I'.
  split_and!.
  - by apply I.
  - destruct I' as (_ & I2 & _). rewrite I2, F; [done |].
    by apply close_leaves_open.
  - intros es j deps' delay'.
    pose proof (after_close_not_open i deps delay es w) as N.
    split; [by apply close_not_open |].
    destruct (inv_run es _ I') as (_ & I2 & _). by rewrite I2, F.
Qed.

(** C5.  [isHealthy] returns [false], and calls nothing, whenever the
    status is not [OPEN], hence after any [close] whatever the override
    would say; in state [OPEN] it returns what the override returns when
    there is one, and [true] otherwise. *)
Theorem isHealthy_follows_status i deps w :
  (_status w ≠ OPEN → isHealthy i deps w = (Returned (VBool false), w))
  ∧ (∀ f, _status w = OPEN → _isHealthy m = VFun f →
     isHealthy i deps w
     = (result_of (behaviour f (length (log w)) [Arg deps]),
        record {| via := IsHealthyFn; callee := f; this := i;
                  args := [Arg deps]; status_on_entry := OPEN |} w))
  ∧ (_status w = OPEN → is_function (_isHealthy m) = false →
     isHealthy i deps w = (Returned (VBool true), w))
  ∧ (∀ j deps' delay es,
       isHealthy i deps (run es (close j deps' delay w).2)
       = (Returned (VBool false), run es (close j deps' delay w).2)).
Proof.
  split_and!.
  - apply isHealthy_not_open.
  - intros f. apply isHealthy_override.
  - apply isHealthy_no_override.
  - intros j deps' delay es. apply isHealthy_not_open, after_close_not_open.
Qed.

(** C7.  The synthesized operations are as synchronous as the user's
    functions: [close] returns a promise only when the user's close
    function was called and returned one, and has finished, with the
    status [CLOSED], when it returns after a missing or synchronous user
    function; [isHealthy] returns a promise only when the override returned
    it, a boolean when there is no override, and the very value of a
    synchronous override.  And they are as asynchronous: when the user's
    close function returns a promise, [close] returns one too, which is
    pending on return and stays so for as long as the user's is, the
    status being [CLOSING]; when the override returns a promise,
    [isHealthy] returns that very promise. *)
Theorem synchronicity_preserved i deps delay w :
  (∀ q, (close i deps delay w).1 = ReturnedPromise q →
     _status w = OPEN
     ∧ ∃ f p, _close m = VFun f
        ∧ behaviour f (length (log w)) [Arg deps; Opts delay] = ReturnsPromise p)
  ∧ (_status w = OPEN → is_function (_close m) = false →
     close i deps delay w = (Returned VUndefined, set_status CLOSED w))
  ∧ (∀ f v, _status w = OPEN → _close m = VFun f →
     behaviour f (length (log w)) [Arg deps; Opts delay] = Returns v →
     (close i deps delay w).1 = Returned VUndefined
     ∧ _status (close i deps delay w).2 = CLOSED)
  ∧ (∀ q, (isHealthy i deps w).1 = ReturnedPromise q →
     _status w = OPEN
     ∧ ∃ f p, _isHealthy m = VFun f
        ∧ behaviour f (length (log w)) [Arg deps] = ReturnsPromise p
        ∧ q = UserP p)
  ∧ (is_function (_isHealthy m) = false →
     ∃ b, isHealthy i deps w = (Returned (VBool b), w))
  ∧ (∀ f v, _status w = OPEN → _isHealthy m = VFun f →
     behaviour f (length (log w)) [Arg deps] = Returns v →
     (isHealthy i deps w).1 = Returned v)
  ∧ (∀ f p, reachable w → _status w = OPEN → _close m = VFun f →
     behaviour f (length (log w)) [Arg deps; Opts delay] = ReturnsPromise p →
     ∃ d, (close i deps delay w).1 = ReturnedPromise (ThenP d)
          ∧ _status (close i deps delay w).2 = CLOSING
          ∧ thens (close i deps delay w).2 !! d = Some None
          ∧ ∀ es, settled (run es (close i deps delay w).2) !! p = None →
                  thens (run es (close i deps delay w).2) !! d = Some None)
  ∧ (∀ f p, _status w = OPEN → _isHealthy m = VFun f →
     behaviour f (length (log w)) [Arg deps] = ReturnsPromise p →
     (isHealthy i deps w).1 = ReturnedPromise (UserP p)).
Proof.
  split_and!.
  - intros q. unfold Closure.close. case_decide as N; [done |].
    destruct (_close m) as [| | | | | | | f] eqn:F; try done.
    destruct (behaviour f _ _) as [v | p | e] eqn:B; try done.
    intros _. split; [by destruct (_status w); auto |].
    exists f, p. split; [done |]. by rewrite <- B.
  - apply close_no_override.
  - intros f v O F B. rewrite (close_override _ _ _ _ f) by done.
    cbv zeta. by rewrite B.
  - intros q. unfold Closure.isHealthy. case_decide as N; [done |].
    destruct (_isHealthy m) as [| | | | | | | f] eqn:F; try done. simpl.
    destruct (behaviour f _ _) as [v | p | e] eqn:B; try done.
    intros [= <-]. split; [by destruct (_status w); auto |].
    by exists f, p.
  - intros F. unfold Closure.isHealthy. case_decide; [by eexists |].
    destruct (_isHealthy m); try done; by eexists.
  - intros f v O F B. rewrite (isHealthy_override _ _ _ f) by done.
    simpl. by rewrite B.
  - intros f p Rw O F B. pose proof (reachable_inv w Rw) as I.
    destruct (close_promise_tracks i deps delay w f p I O F B) as [R T].
    exists (length (thens w)). split; [done |].
    assert (∀ w', tracks p (length (thens w)) w' →
                  thens w' !! length (thens w) = Some None
                  ∨ ∃ o, settled w' !! p = Some o) as K.
    { intros w' [? ? ? ? L | o ? S ? ? L | e ? S | v ? S]; eauto. }
    split_and!.
    + rewrite (close_override _ _ _ _ f) by done. cbv zeta. rewrite B.
      unfold response_then. by destruct (settled _ !! p).
    + rewrite (close_override _ _ _ _ f) by done. cbv zeta. rewrite B.
      unfold response_then.
      destruct (settled _ !! p); simpl; by apply list_lookup_middle.
    + intros es S. destruct (K _ (tracks_run _ _ es _ T)) as [L | [o S']];
        [done | congruence].
  - intros f p O F B. rewrite (isHealthy_override _ _ _ f) by done.
    simpl. by rewrite B.
Qed.

(** *** Commands and the reserved names *)

Lemma merged_fns_close o : merged_fns o !! "close" = Some SynthClose.
Proof. unfold merged_fns. by simplify_map_eq. Qed.

Lemma merged_fns_isHealthy o : merged_fns o !! "isHealthy" = Some SynthIsHealthy.
Proof. unfold merged_fns. by simplify_map_eq. Qed.

Lemma merged_fns_status o : merged_fns o !! "status" = Some SynthStatus.
Proof. unfold merged_fns. by simplify_map_eq. Qed.

Lemma merged_fns_other o k :
  k ≠ "close" → k ≠ "isHealthy" → k ≠ "status" →
  merged_fns o !! k = Fn <$> o !! k.
Proof.
  intros. unfold merged_fns. rewrite !lookup_insert_ne by done.
  apply lookup_fmap.
Qed.

Lemma commands_from_fns_record c w :
  (∀ name, via c = Command name → fns m !! name = Some (Fn (VFun (callee c)))) →
  commands_from_fns w → commands_from_fns (record c w).
Proof.
  intros Hc Hw c' name Hin Hv. simpl in Hin.
  apply elem_of_app in Hin as [Hin | Hin]; [by apply Hw |].
  apply list_elem_of_singleton in Hin as ->. by apply Hc.
Qed.

Lemma commands_from_fns_log w w' :
  log w' = log w → commands_from_fns w → commands_from_fns w'.
Proof. intros E Hw c name. rewrite E. apply Hw. Qed.

Lemma commands_from_fns_close i deps delay w :
  commands_from_fns w → commands_from_fns (close i deps delay w).2.
Proof.
  intros Hw. unfold Closure.close. case_decide; [done |].
  destruct (_close m) as [| | | | | | | f]; try done.
  assert (commands_from_fns
            (record {| via := CloseFn; callee := f; this := i;
                       args := [Arg deps; Opts delay];
                       status_on_entry := CLOSING |} (set_status CLOSING w))) as Hr.
  { by apply commands_from_fns_record. }
  destruct (behaviour f _ _); simpl; try done.
  by destruct (settled _ !! _).
Qed.

Lemma commands_from_fns_step w e :
  commands_from_fns w → commands_from_fns (step w e).
Proof.
  intros Hw. destruct e as [| i name args | p o |]; simpl.
  - done.
  - unfold Closure.invoke. destruct (instances w !! i) as [deps |]; [| done].
    destruct (fns m !! name) as [[v | | |] |] eqn:L; try done.
    + destruct v; try done. simpl. apply commands_from_fns_record; [| done].
      simpl. by intros name' [= <-].
    + by apply commands_from_fns_close.
    + unfold Closure.isHealthy. case_decide; [done |].
      destruct (_isHealthy m); try done. simpl.
      by apply commands_from_fns_record.
  - unfold settle. by destruct (settled w !! p).
  - unfold tick. by destruct (jobs w) as [| [d [v | e]] js].
Qed.

Lemma commands_from_fns_run es : commands_from_fns (run es fresh).
Proof.
  apply run_ind.
  - intros c name Hin. by apply elem_of_nil in Hin.
  - intros. by apply commands_from_fns_step.
Qed.

Lemma existsb_negb_forallb {A} (f : A → bool) (l : list A) :
  forallb f l = true → existsb (λ x, negb (f x)) l = false.
Proof.
  induction l as [| x l IH]; simpl; [done |].
  intros [Hx Hl]%andb_prop. by rewrite Hx, IH.
Qed.

Lemma validator_accepts_any_names h d l :
  valid_but_for_fns h d = true → def_fns d = VObj l →
  forallb is_function (values (deref h l)) = true →
  ∃ m', DapiClientMixin h d = inr m'.
Proof.
  unfold valid_but_for_fns. intros V F A.
  repeat (apply andb_prop in V as [V ?]).
  unfold DapiClientMixin, validateDefinition, DapiMixin_validate. cbv zeta.
  repeat match goal with
         | H : negb ?c = true |- context [throws_when ?c _] =>
             apply negb_true_iff in H; rewrite H; simpl
         | H : ?c = true |- context [throws_when (negb ?c) _] =>
             rewrite H; simpl
         end.
  rewrite F, (existsb_negb_forallb _ _ A). simpl. by eexists.
Qed.

(** C10.  Reserved names are refused in the bundle only: a definition
    that is valid otherwise and whose [fns] holds functions passes the
    validator under any names, [close], [isHealthy] and [status] included; and
    in the class that results these three names denote the synthesized
    operations, so that no run ever calls a user function through one of
    them. *)
Theorem reserved_fns_replaced h d :
  (∀ l, valid_but_for_fns h d = true → def_fns d = VObj l →
     forallb is_function (values (deref h l)) = true →
     ∃ m', DapiClientMixin h d = inr m')
  ∧ (DapiClientMixin h d = inr m →
     fns m !! "close" = Some SynthClose
     ∧ fns m !! "isHealthy" = Some SynthIsHealthy
     ∧ fns m !! "status" = Some SynthStatus
     ∧ ∀ es c name, c ∈ log (run es fresh) → via c = Command name →
         name ≠ "close" ∧ name ≠ "isHealthy" ∧ name ≠ "status").
Proof.
  split; [intros l; apply validator_accepts_any_names |].
  unfold DapiClientMixin.
  destruct (validateDefinition h d); [done |].
  destruct (DapiMixin_validate d); [done |]. intros [= E].
  assert (fns m = merged_fns (spread h (def_fns d))) as Ef by (by rewrite <- E).
  rewrite Ef.
  split_and!; [apply merged_fns_close | apply merged_fns_isHealthy
               | apply merged_fns_status |].
  intros es c name Hin Hv.
  pose proof (commands_from_fns_run es c name Hin Hv) as L. rewrite Ef in L.
  split_and!; intros ->.
  - by rewrite merged_fns_close in L.
  - by rewrite merged_fns_isHealthy in L.
  - by rewrite merged_fns_status in L.
Qed.

(** *** One status for all the instances of a class *)

(** What does hold of the status of a class: it starts [OPEN], never
    moves backward, [CLOSED] is final, and only [close] or the callback of
    [close] changes it. *)
Lemma status_monotone es1 es2 :
  _status fresh = OPEN
  ∧ rank (_status (run es1 fresh)) ≤ rank (_status (run (es1 ++ es2) fresh))
  ∧ (_status (run es1 fresh) = CLOSED → _status (run (es1 ++ es2) fresh) = CLOSED)
  ∧ (∀ e, _status (step (run es1 fresh) e) ≠ _status (run es1 fresh) →
       (∃ i name args, e = Invoke i name args ∧ fns m !! name = Some SynthClose)
       ∨ e = Tick).
Proof.
  split_and!.
  - done.
  - rewrite run_app. apply run_rank.
  - rewrite run_app. apply closed_terminal.
  - intros e. apply step_status_change.
Qed.

End WithMixin.

Import Samples.

(** C6 fails on the current revision.  [_status] belongs to the class,
    not to the instance: after one instance of a class has been closed, a
    second instance of the same class reads [closed] from the start. *)
Theorem second_instance_starts_closed :
  DapiClientMixin heap_plain plain = inr no_overrides
  ∧ instances (run quiet no_overrides [New; Invoke 0 "close" []; New] fresh) !! 1
    = Some (VObj 0)
  ∧ (invoke quiet no_overrides 1 "status" []
       (run quiet no_overrides [New; Invoke 0 "close" []; New] fresh)).1
    = Returned (VStr "closed").
Proof. split_and!; vm_compute; reflexivity. Qed.

(** C4 fails on the current revision, by the same shared [_status]: on
    the second instance of a class whose first instance has been closed,
    [close] called twice returns [undefined] both times and the user's
    close function is not called at all, where it should be called once;
    the only call on record is the one made through the first instance. *)
Theorem second_instance_never_closes :
  let w := run close_sync both_overrides [New; Invoke 0 "close" []; New] fresh in
  let w' := run close_sync both_overrides
              [Invoke 1 "close" []; Invoke 1 "close" []] w in
  DapiClientMixin heap_plain with_overrides = inr both_overrides
  ∧ instances w !! 1 = Some (VObj 0)
  ∧ invoke close_sync both_overrides 1 "close" [] w = (Returned VUndefined, w)
  ∧ w' = w
  ∧ (λ c, (via c, callee c, this c)) <$> log w' = [(CloseFn, 5, 0)].
Proof. split_and!; vm_compute; reflexivity. Qed.

(** *** The theorems at work on the samples *)

Lemma close_failure_leaves_closing_witness :
  ((close close_throws both_overrides 0 (VObj 0) VUndefined
      (one_instance both_overrides)).1 = Threw failed_to_close
   ∧ _status (run close_throws both_overrides [Tick; Invoke 0 "close" []]
                (close close_throws both_overrides 0 (VObj 0) VUndefined
                   (one_instance both_overrides)).2) = CLOSING)
  ∧ ∃ d,
      (close close_async both_overrides 0 (VObj 0) VUndefined
         (one_instance both_overrides)).1 = ReturnedPromise (ThenP d)
      ∧ thens (drain close_async both_overrides
                 (run close_async both_overrides [Settle 0 (Rejected failed_to_close)]
                    (close close_async both_overrides 0 (VObj 0) VUndefined
                       (one_instance both_overrides)).2)) !! d
        = Some (Some (Rejected failed_to_close)).
Proof.
  split.
  - destruct (proj1 (close_failure_leaves_closing close_throws both_overrides
                       0 (VObj 0) VUndefined (one_instance both_overrides) 5
                       (ex_intro _ [New] eq_refl) eq_refl eq_refl)
                failed_to_close eq_refl) as [Hr Hs].
    split; [exact Hr | exact (Hs [Tick; Invoke 0 "close" []])].
  - destruct (proj2 (close_failure_leaves_closing close_async both_overrides
                       0 (VObj 0) VUndefined (one_instance both_overrides) 5
                       (ex_intro _ [New] eq_refl) eq_refl eq_refl)
                0 eq_refl) as (d & Hr & Hs).
    exists d. split; [exact Hr |].
    exact (proj1 (Hs [Settle 0 (Rejected failed_to_close)] failed_to_close eq_refl)).
Defined.

Lemma closing_before_async_work_witness :
  status (close close_async both_overrides 0 (VObj 0) VUndefined
            (one_instance both_overrides)).2 ≠ OPEN
  ∧ ∃ f p,
      _close both_overrides = VFun f
      ∧ close_async f 0 [Arg (VObj 0); Opts VUndefined] = ReturnsPromise p
      ∧ status (close close_async both_overrides 0 (VObj 0) VUndefined
                  (one_instance both_overrides)).2 = CLOSING.
Proof.
  destruct (closing_before_async_work close_async both_overrides
              0 (VObj 0) VUndefined (one_instance both_overrides)
              (ex_intro _ [New] eq_refl) eq_refl) as (H1 & _ & H3).
  split; [exact H1 |].
  destruct (H3 (ThenP 0) eq_refl) as (f & p & F & B & C & _).
  exists f, p. exact (conj F (conj B C)).
Defined.

Lemma close_idempotent_witness :
  close_calls (log (close close_async both_overrides 0 (VObj 0) VUndefined
                      (one_instance both_overrides)).2) = 1
  ∧ close_calls
      (log (run close_async both_overrides
              [Invoke 0 "close" []; Settle 0 (Fulfilled VUndefined); Tick;
               Invoke 0 "close" []]
              (close close_async both_overrides 0 (VObj 0) VUndefined
                 (one_instance both_overrides)).2)) = 1.
Proof.
  destruct (proj2 (close_idempotent close_async both_overrides
                     0 (VObj 0) VUndefined (one_instance both_overrides))
              (ex_intro _ [New] eq_refl) eq_refl eq_refl) as (_ & H1 & H2).
  split; [exact H1 |].
  exact (proj2 (H2 [Invoke 0 "close" []; Settle 0 (Fulfilled VUndefined); Tick;
                    Invoke 0 "close" []] 0 (VObj 0) VUndefined)).
Defined.

Lemma isHealthy_follows_status_witness :
  isHealthy close_async both_overrides 0 (VObj 0) (one_instance both_overrides)
  = (Returned (VBool true),
     record {| via := IsHealthyFn; callee := 6; this := 0; args := [Arg (VObj 0)];
               status_on_entry := OPEN |} (one_instance both_overrides))
  ∧ isHealthy quiet no_overrides 0 (VObj 0) (one_instance no_overrides)
    = (Returned (VBool true), one_instance no_overrides).
Proof.
  split.
  - exact (proj1 (proj2 (isHealthy_follows_status close_async both_overrides
                           0 (VObj 0) (one_instance both_overrides)))
             6 eq_refl eq_refl).
  - exact (proj1 (proj2 (proj2 (isHealthy_follows_status quiet no_overrides
                                  0 (VObj 0) (one_instance no_overrides))))
             eq_refl eq_refl).
Defined.

Lemma synchronicity_preserved_witness :
  close quiet no_overrides 0 (VObj 0) VUndefined (one_instance no_overrides)
  = (Returned VUndefined, set_status CLOSED (one_instance no_overrides))
  ∧ (isHealthy close_async both_overrides 0 (VObj 0)
       (one_instance both_overrides)).1 = Returned (VBool true)
  ∧ (∃ d, (close close_async both_overrides 0 (VObj 0) VUndefined
             (one_instance both_overrides)).1 = ReturnedPromise (ThenP d)
          ∧ thens (run close_async both_overrides
                     [Invoke 0 "isHealthy" []; Tick; Settle 7 (Fulfilled VNull)]
                     (close close_async both_overrides 0 (VObj 0) VUndefined
                        (one_instance both_overrides)).2) !! d = Some None)
  ∧ (isHealthy health_async both_overrides 0 (VObj 0)
       (one_instance both_overrides)).1 = ReturnedPromise (UserP 1).
Proof.
  destruct (synchronicity_preserved quiet no_overrides
              0 (VObj 0) VUndefined (one_instance no_overrides))
    as (_ & S2 & _).
  destruct (synchronicity_preserved close_async both_overrides
              0 (VObj 0) VUndefined (one_instance both_overrides))
    as (_ & _ & _ & _ & _ & A6 & A7 & _).
  destruct (synchronicity_preserved health_async both_overrides
              0 (VObj 0) VUndefined (one_instance both_overrides))
    as (_ & _ & _ & _ & _ & _ & _ & H8).
  split_and!.
  - exact (S2 eq_refl eq_refl).
  - exact (A6 6 (VBool true) eq_refl eq_refl eq_refl).
  - destruct (A7 5 0 (ex_intro _ [New] eq_refl) eq_refl eq_refl eq_refl)
      as (d & R & _ & _ & P).
    exists d. split; [exact R |].
    apply (P [Invoke 0 "isHealthy" []; Tick; Settle 7 (Fulfilled VNull)]).
    vm_compute. reflexivity.
  - exact (H8 6 1 eq_refl eq_refl eq_refl).
Defined.

Lemma reserved_fns_replaced_witness :
  (∃ m', DapiClientMixin heap_reserved_fns plain = inr m')
  ∧ fns reserved_fns !! "close" = Some SynthClose
  ∧ fns reserved_fns !! "isHealthy" = Some SynthIsHealthy
  ∧ fns reserved_fns !! "status" = Some SynthStatus.
Proof.
  split.
  - apply (proj1 (reserved_fns_replaced quiet reserved_fns heap_reserved_fns plain) 2).
    + vm_compute. reflexivity.
    + reflexivity.
    + vm_compute. reflexivity.
  - destruct (proj2 (reserved_fns_replaced quiet reserved_fns heap_reserved_fns plain))
      as (H1 & H2 & H3 & _).
    + vm_compute. reflexivity.
    + exact (conj H1 (conj H2 H3)).
Defined.

(** *** The scenarios of the test suite *)

(** No overrides: open and healthy, then closed and unhealthy after
    [close()]. *)
Example open_then_closed :
  let w0 := one_instance no_overrides in
  let w1 := (invoke quiet no_overrides 0 "close" [] w0).2 in
  (invoke quiet no_overrides 0 "status" [] w0).1 = Returned (VStr "open")
  ∧ (invoke quiet no_overrides 0 "isHealthy" [] w0).1 = Returned (VBool true)
  ∧ (invoke quiet no_overrides 0 "close" [] w0).1 = Returned VUndefined
  ∧ (invoke quiet no_overrides 0 "status" [] w1).1 = Returned (VStr "closed")
  ∧ (invoke quiet no_overrides 0 "isHealthy" [] w1).1 = Returned (VBool false).
Proof. split_and!; vm_compute; reflexivity. Qed.

(** An asynchronous close function: [closing] as soon as [close({delay: 1})]
    has returned, the user function called once with the bundle and
    [{delay: 1}], unhealthy meanwhile, [closed] after the promise has been
    fulfilled and the callback has run. *)
Example closing_then_closed :
  let w0 := one_instance both_overrides in
  let w1 := (invoke close_async both_overrides 0 "close" [Opts (VNum 1)] w0).2 in
  let w2 := run close_async both_overrides [Settle 0 (Fulfilled VUndefined); Tick] w1 in
  (invoke close_async both_overrides 0 "close" [Opts (VNum 1)] w0).1
  = ReturnedPromise (ThenP 0)
  ∧ status w1 = CLOSING
  ∧ log w1 = [ {| via := CloseFn; callee := 5; this := 0;
                  args := [Arg (VObj 0); Opts (VNum 1)];
                  status_on_entry := CLOSING |} ]
  ∧ (invoke close_async both_overrides 0 "isHealthy" [] w1).1 = Returned (VBool false)
  ∧ status w2 = CLOSED
  ∧ thens w2 !! 0 = Some (Some (Fulfilled VUndefined))
  ∧ (invoke close_async both_overrides 0 "isHealthy" [] w2).1 = Returned (VBool false).
Proof. split_and!; vm_compute; reflexivity. Qed.

(** A command of the user is called with the bundle of its instance
    before the caller's arguments; a reserved name goes to the synthesized
    operation. *)
Example echo_and_reserved_names :
  let w0 := one_instance reserved_fns in
  log (invoke quiet reserved_fns 0 "echo" [Arg (VStr "hi")] w0).2
  = [ {| via := Command "echo"; callee := 10; this := 0;
         args := [Arg (VObj 0); Arg (VStr "hi")]; status_on_entry := OPEN |} ]
  ∧ log (invoke quiet reserved_fns 0 "close" [] w0).2 = []
  ∧ (invoke quiet reserved_fns 0 "status" [] w0).1 = Returned (VStr "open").
Proof. split_and!; vm_compute; reflexivity. Qed.

End Lifecycle.

(* ===================================================================== *)
(** ** The setters of the class based revision *)
(* ===================================================================== *)

Module Setters.

Import ClassMixin Samples.

Local Open Scope nat_scope.

Lemma wrapped_constructed :
  new VUndefined VUndefined bound_ids heap_two_keys (VObj 0) = inr wrapped.
Proof. vm_compute. reflexivity. Qed.

(** *** Well-formed instances *)

Lemma get_truthy_obj h v k : truthy (get h v k) = true → ∃ l, v = VObj l.
Proof. destruct v; simpl; try done. by eexists. Qed.

Lemma get_truthy_valid h l k : truthy (get h (VObj l) k) = true → l < length h.
Proof.
  simpl. unfold deref. destruct (h !! l) eqn:E.
  - intros _. by eapply lookup_lt_Some.
  - simpl. by rewrite lookup_empty.
Qed.

Lemma get_alloc h o k : get (h ++ [o]) (VObj (length h)) k = default VUndefined (o !! k).
Proof. simpl. unfold deref. by rewrite list_lookup_middle. Qed.

Lemma new_wf close isHealthy bound h seed st :
  new close isHealthy bound h seed = inr st → wf st.
Proof.
  unfold new. cbn [getDependencies store objects].
  destruct seed as [| | | | | | l |]; try (simpl; done).
  destruct (truthy (get h (VObj l) "client")) eqn:T; [| done]. cbn [negb].
  unfold setDependencies.
  cbn [truthy negb with_objects objects store getDependencies _status _close
       _isHealthy].
  rewrite get_alloc, !lookup_insert_ne by done.
  change (default VUndefined (spread h (VObj l) !! "client"))
    with (get h (VObj l) "client").
  rewrite T. cbn [negb]. unfold strict_eq. case_bool_decide as E.
  - intros [= <-]. simplify_eq. apply get_truthy_valid in T. lia.
  - intros [= <-]. exists (length h).
    cbn [super_setDependencies with_objects store objects].
    split_and!; [done | |].
    + rewrite length_app. simpl. lia.
    + rewrite get_alloc, !lookup_insert_ne by done. exact T.
Qed.

Lemma wf_setClient c st : wf st → wf (setClient c st).2.
Proof.
  intros (l & S & L & T). unfold setClient.
  destruct (truthy c) eqn:Tc; simpl; [| by exists l].
  unfold getDependencies. rewrite S.
  destruct (strict_eq _ c); simpl; [by exists l |].
  exists l. simpl. split_and!; [done | by rewrite length_insert |].
  unfold deref. rewrite list_lookup_insert_eq by done. simpl.
  by rewrite lookup_insert_eq.
Qed.

Lemma wf_setDependencies d st : wf st → wf (setDependencies d st).2.
Proof.
  intros W. unfold setDependencies.
  destruct (truthy d); simpl; [| done].
  destruct (truthy (get (objects st) d "client")) eqn:T; simpl; [| done].
  destruct (strict_eq _ d); simpl; [done |].
  destruct (get_truthy_obj _ _ _ T) as [l ->].
  exists l. simpl. split_and!; [done | by eapply get_truthy_valid | done].
Qed.

Lemma wf_apply st o : wf st → wf (apply st o).
Proof.
  destruct o as [c | d | o]; simpl.
  - apply wf_setClient.
  - apply wf_setDependencies.
  - intros (l & S & L & T). exists l. simpl. split_and!; [done | |].
    + rewrite length_app. lia.
    + revert T. simpl. unfold deref. by rewrite lookup_app_l.
Qed.

Lemma wf_run os st : wf st → wf (run os st).
Proof.
  revert st. induction os as [| o os IH]; intros st W; [done |].
  simpl. apply IH. by apply wf_apply.
Qed.

(** *** The properties of the spec *)

(** C8, as the spec words it, fails: [setClient] does not make a new
    bundle.  On the sample instance the store refers to the same object
    after the call, a reader that kept the earlier reference finds the new
    client in it, and the state differs from the one [update] would
    leave. *)
Lemma setClient_mutates_bundle :
  truthy (VObj 4) = true
  ∧ strict_eq (getClient wrapped_and_spare) (VObj 4) = false
  ∧ store (setClient (VObj 4) wrapped_and_spare).2 = store wrapped_and_spare
  ∧ get (objects wrapped_and_spare) (store wrapped_and_spare) "client" = VObj 1
  ∧ get (objects (setClient (VObj 4) wrapped_and_spare).2)
        (store wrapped_and_spare) "client" = VObj 4
  ∧ (setClient (VObj 4) wrapped_and_spare).2
    ≠ update_spec {[ "client" := VObj 4 ]} wrapped_and_spare.
Proof.
  split_and!; try (vm_compute; reflexivity).
  intros E. apply (f_equal store) in E. vm_compute in E. discriminate E.
Qed.

(** C8 (amended).  For a truthy [newClient] that is not the current
    client, [setClient] writes the key [client] of the current bundle
    object in place: the call succeeds, the store keeps referring to the
    same object, whose contents are the previous ones with only [client]
    replaced, the same contents that [update({client: newClient})] would
    give its new bundle; no object is created and no other object or field
    changes, so that a reader of the earlier reference sees the new
    client.  When [newClient] is the current client the call does
    nothing. *)
Theorem setClient_writes_in_place st newClient l :
  store st = VObj l → l < length (objects st) → truthy newClient = true →
  (strict_eq (getClient st) newClient = true →
   setClient newClient st = (inr tt, st))
  ∧ (strict_eq (getClient st) newClient = false →
     (setClient newClient st).1 = inr tt
     ∧ store (setClient newClient st).2 = store st
     ∧ deref (objects (setClient newClient st).2) l
       = <["client" := newClient]> (deref (objects st) l)
     ∧ deref (objects (setClient newClient st).2) l
       = spread (objects (update_spec {[ "client" := newClient ]} st))
                (store (update_spec {[ "client" := newClient ]} st))
     ∧ length (objects (setClient newClient st).2) = length (objects st)
     ∧ (∀ l', l' ≠ l →
          objects (setClient newClient st).2 !! l' = objects st !! l')
     ∧ _status (setClient newClient st).2 = _status st
     ∧ get (objects (setClient newClient st).2) (VObj l) "client" = newClient).
Proof.
  intros S L T. unfold setClient, getClient, getDependencies.
  rewrite T, S. cbn [negb]. split; intros E; rewrite E; [done |].
  cbn [assign fst snd with_objects objects store _status].
  assert (deref (<[l := <["client" := newClient]> (deref (objects st) l)]> (objects st)) l
          = <["client" := newClient]> (deref (objects st) l)) as D.
  { unfold deref at 1. by rewrite list_lookup_insert_eq. }
  split_and!.
  - done.
  - done.
  - exact D.
  - rewrite D. unfold update_spec, getDependencies.
    cbn [super_setDependencies with_objects objects store spread].
    rewrite S. unfold deref at 2. rewrite list_lookup_middle by done.
    simpl. apply insert_union_singleton_l.
  - apply length_insert.
  - intros l' N. by apply list_lookup_insert_ne.
  - done.
  - simpl. rewrite D. by rewrite lookup_insert_eq.
Qed.

Lemma setClient_writes_in_place_witness :
  (setClient (VObj 4) wrapped_and_spare).1 = inr tt
  ∧ store (setClient (VObj 4) wrapped_and_spare).2 = store wrapped_and_spare
  ∧ setClient (VObj 1) wrapped_and_spare = (inr tt, wrapped_and_spare).
Proof.
  destruct (setClient_writes_in_place wrapped_and_spare (VObj 4) 3
              eq_refl ltac:(vm_compute; lia) eq_refl) as [_ H].
  destruct (H eq_refl) as (H1 & H2 & _).
  split_and!; [exact H1 | exact H2 |].
  exact (proj1 (setClient_writes_in_place wrapped_and_spare (VObj 1) 3
                  eq_refl ltac:(vm_compute; lia) eq_refl) eq_refl).
Defined.

(** C9.  [setDependencies] throws a [TypeError] on a falsy argument and
    on one without a truthy [client], [{}] for one; [setClient] throws a
    [TypeError] on a falsy argument; and each time the state that results
    is the state before the call: heap, store, status and overrides. *)
Theorem setters_reject_and_keep_state st v :
  (truthy v = false →
   ∃ message cause, setDependencies v st = (inl (TypeError message cause), st))
  ∧ (truthy (get (objects st) v "client") = false →
     ∃ message cause, setDependencies v st = (inl (TypeError message cause), st))
  ∧ (truthy v = false →
     ∃ message cause, setClient v st = (inl (TypeError message cause), st)).
Proof.
  unfold setDependencies, setClient. split_and!.
  - intros ->. simpl. by do 2 eexists.
  - intros ->. destruct (truthy v); simpl; by do 2 eexists.
  - intros ->. simpl. by do 2 eexists.
Qed.

Lemma setters_reject_and_keep_state_witness :
  (∃ message cause,
     setDependencies VUndefined wrapped_and_spare
     = (inl (TypeError message cause), wrapped_and_spare))
  ∧ (∃ message cause,
       setDependencies (VObj 4) wrapped_and_spare
       = (inl (TypeError message cause), wrapped_and_spare))
  ∧ (∃ message cause,
       setClient VUndefined wrapped_and_spare
       = (inl (TypeError message cause), wrapped_and_spare)).
Proof.
  split_and!.
  - exact (proj1 (setters_reject_and_keep_state wrapped_and_spare VUndefined) eq_refl).
  - exact (proj1 (proj2 (setters_reject_and_keep_state wrapped_and_spare (VObj 4)))
             eq_refl).
  - exact (proj2 (proj2 (setters_reject_and_keep_state wrapped_and_spare VUndefined))
             eq_refl).
Defined.

End Setters.

(* ===================================================================== *)
(** ** What the current validator accepts, and what it reports *)
(* ===================================================================== *)

Module Acceptance.

Import Samples.

Lemma no_stranger_iff (o : object) :
  existsb (λ fn, negb (is_function fn)) (values o) = false
  ↔ ∀ k v, o !! k = Some v → is_function v = true.
Proof.
  split.
  - intros E k v L. destruct (is_function v) eqn:F; [done |].
    assert (existsb (λ fn, negb (is_function fn)) (values o) = true) as T.
    { apply existsb_exists. exists v. split; [| by rewrite F].
      apply list_elem_of_In, list_elem_of_fmap. exists (k, v).
      split; [done |]. by apply elem_of_map_to_list. }
    congruence.
  - intros A. destruct (existsb _ _) eqn:E; [| done].
    apply existsb_exists in E as (v & Hin & Hv).
    apply list_elem_of_In, list_elem_of_fmap in Hin as ([k v'] & -> & Hin).
    apply elem_of_map_to_list in Hin. simpl in Hv. by rewrite (A _ _ Hin) in Hv.
Qed.

(** X1.  The current [validateDefinition] lets a definition through
    exactly when each override is falsy or a function, the dependencies are
    truthy, hold nothing truthy under [close] and [isHealthy] and hold a
    truthy [client], and [fns] is an object all of whose values are
    functions (an object without keys will do). *)
Theorem validateDefinition_accepts_iff (h : heap) (d : definition) :
  Closure.validateDefinition h d = inr tt
  ↔ (truthy (def_close d) = true → is_function (def_close d) = true)
    ∧ (truthy (def_isHealthy d) = true → is_function (def_isHealthy d) = true)
    ∧ truthy (def_dependencies d) = true
    ∧ truthy (get h (def_dependencies d) "close") = false
    ∧ truthy (get h (def_dependencies d) "isHealthy") = false
    ∧ truthy (get h (def_dependencies d) "client") = true
    ∧ ∃ l, def_fns d = VObj l
           ∧ ∀ k v, deref h l !! k = Some v → is_function v = true.
Proof.
  unfold Closure.validateDefinition. cbv zeta.
  destruct (truthy (def_close d)) eqn:T1, (is_function (def_close d)) eqn:F1;
    simpl; try (split; [done | intros (A & _); by specialize (A eq_refl)]).
  all: destruct (truthy (def_isHealthy d)) eqn:T2,
         (is_function (def_isHealthy d)) eqn:F2;
    simpl; try (split; [done | intros (_ & A & _); by specialize (A eq_refl)]).
  all: destruct (truthy (def_dependencies d)) eqn:T3; simpl;
    try (split; [done | by intros (_ & _ & A & _)]).
  all: destruct (truthy (get h (def_dependencies d) "close")) eqn:T4; simpl;
    try (split; [done | by intros (_ & _ & _ & A & _)]).
  all: destruct (truthy (get h (def_dependencies d) "isHealthy")) eqn:T5; simpl;
    try (split; [done | by intros (_ & _ & _ & _ & A & _)]).
  all: destruct (truthy (get h (def_dependencies d) "client")) eqn:T6; simpl;
    try (split; [done | by intros (_ & _ & _ & _ & _ & A & _)]).
  all: destruct (def_fns d) as [| | | | | | l |] eqn:Fn;
    try (split; [done | by intros (_ & _ & _ & _ & _ & _ & l' & ? & _)]).
  all: destruct (existsb _ (values (deref h l))) eqn:E; simpl.
  all: try (split; [done |];
            intros (_ & _ & _ & _ & _ & _ & l' & [= <-] & A);
            apply no_stranger_iff in A; congruence).
  all: split; [intros _ | done]; split_and!; try done;
       exists l; split; [done |]; by apply no_stranger_iff.
Qed.

(** X2.  The current [validateDefinition] reports the first fault in the
    order of its checks: a [close] that is truthy and no function; then
    such an [isHealthy]; then missing dependencies; then a bundle without a
    truthy [client] (no reserved key being set); then an [fns] that is no
    object; then an [fns] with a value that is no function.  Each comes as
    a [TypeError] with the message and the cause of the source. *)
Theorem first_fault_reported (h : heap) (d : definition) :
  (truthy (def_close d) && negb (is_function (def_close d)) = true →
   Closure.validateDefinition h d
   = inl (TypeError "close must be a function" (Some ("close", def_close d))))
  ∧ (truthy (def_close d) && negb (is_function (def_close d)) = false →
     (truthy (def_isHealthy d) && negb (is_function (def_isHealthy d)) = true →
      Closure.validateDefinition h d
      = inl (TypeError "isHealthy must be a function"
               (Some ("_isHealthy", def_isHealthy d))))
     ∧ (truthy (def_isHealthy d) && negb (is_function (def_isHealthy d)) = false →
        (truthy (def_dependencies d) = false →
         Closure.validateDefinition h d
         = inl (TypeError "Definition must have dependencies"
                  (Some ("dependencies", def_dependencies d))))
        ∧ (truthy (def_dependencies d) = true →
           truthy (get h (def_dependencies d) "close")
           || truthy (get h (def_dependencies d) "isHealthy") = false →
           (truthy (get h (def_dependencies d) "client") = false →
            Closure.validateDefinition h d
            = inl (TypeError "Dependencies must have a client"
                     (Some ("dependencies", def_dependencies d))))
           ∧ (truthy (get h (def_dependencies d) "client") = true →
              ((∀ l, def_fns d ≠ VObj l) →
               Closure.validateDefinition h d
               = inl (TypeError
                        "Definition must have a dictionary (`fns`) of Dapi functions"
                        (Some ("fns", def_fns d))))
              ∧ (∀ l k v, def_fns d = VObj l → deref h l !! k = Some v →
                   is_function v = false →
                   Closure.validateDefinition h d
                   = inl (TypeError
                            "Definition's fns dictionary must only contain values of type fn"
                            (Some ("fns", def_fns d)))))))).
Proof.
  unfold Closure.validateDefinition. cbv zeta.
  split; [by intros -> |]. intros ->. simpl.
  split; [by intros -> |]. intros ->. simpl.
  split; [by intros -> |]. intros -> ->. simpl.
  split; [by intros -> |]. intros ->. simpl.
  split.
  - intros N. destruct (def_fns d) as [| | | | | | l |]; try done.
    by destruct (N l).
  - intros l k v -> L F.
    destruct (existsb _ _) eqn:E; [done |].
    pose proof (proj1 (no_stranger_iff _) E _ _ L) as A. congruence.
Qed.

Lemma first_fault_reported_witness :
  Closure.validateDefinition heap_plain close_is_a_string
  = inl (TypeError "close must be a function" (Some ("close", VStr "quit")))
  ∧ Closure.validateDefinition heap_plain isHealthy_is_a_number
    = inl (TypeError "isHealthy must be a function" (Some ("_isHealthy", VNum 1)))
  ∧ Closure.validateDefinition heap_plain no_dependencies
    = inl (TypeError "Definition must have dependencies"
             (Some ("dependencies", VUndefined)))
  ∧ Closure.validateDefinition heap_empty_bundle plain
    = inl (TypeError "Dependencies must have a client" (Some ("dependencies", VObj 0)))
  ∧ Closure.validateDefinition heap_plain no_fns
    = inl (TypeError "Definition must have a dictionary (`fns`) of Dapi functions"
             (Some ("fns", VUndefined)))
  ∧ Closure.validateDefinition heap_null_fn plain
    = inl (TypeError "Definition's fns dictionary must only contain values of type fn"
             (Some ("fns", VObj 2))).
Proof.
  split_and!.
  - exact (proj1 (first_fault_reported heap_plain close_is_a_string) eq_refl).
  - exact (proj1 (proj2 (first_fault_reported heap_plain isHealthy_is_a_number)
                    eq_refl) eq_refl).
  - exact (proj1 (proj2 (proj2 (first_fault_reported heap_plain no_dependencies)
                           eq_refl) eq_refl) eq_refl).
  - exact (proj1 (proj2 (proj2 (proj2 (first_fault_reported heap_empty_bundle plain)
                                  eq_refl) eq_refl) eq_refl eq_refl) eq_refl).
  - refine (proj1 (proj2 (proj2 (proj2 (proj2 (first_fault_reported heap_plain no_fns)
                                          eq_refl) eq_refl) eq_refl eq_refl) eq_refl) _).
    intros l. discriminate.
  - exact (proj2 (proj2 (proj2 (proj2 (proj2 (first_fault_reported heap_null_fn plain)
                                         eq_refl) eq_refl) eq_refl eq_refl) eq_refl)
             2 "foo" VNull eq_refl eq_refl eq_refl).
Defined.

(** X3.  An override that is falsy, [null] or [0] as well as [undefined],
    is not a fault and counts as no override: the validator answers as
    it does for the definition without it, and in the class that results
    [close] goes from [OPEN] straight to [CLOSED] and [isHealthy] answers
    [true], neither calling anything. *)
Theorem falsy_override_is_no_override
    (behaviour : nat → nat → list Closure.arg → Closure.outcome)
    (h : heap) (d : definition) :
  (truthy (def_close d) = false →
   Closure.validateDefinition h d
   = Closure.validateDefinition h (Closure.without_close d)
   ∧ ∀ m i deps delay w,
       Closure.DapiClientMixin h d = inr m → Closure._status w = OPEN →
       Closure.close behaviour m i deps delay w
       = (Closure.Returned VUndefined, Closure.set_status CLOSED w))
  ∧ (truthy (def_isHealthy d) = false →
     Closure.validateDefinition h d
     = Closure.validateDefinition h (Closure.without_isHealthy d)
     ∧ ∀ m i deps w,
         Closure.DapiClientMixin h d = inr m → Closure._status w = OPEN →
         Closure.isHealthy behaviour m i deps w
         = (Closure.Returned (VBool true), w)).
Proof.
  split; intros T.
  - split.
    + unfold Closure.validateDefinition. simpl. by rewrite T.
    + intros m i deps delay w M O.
      apply Lifecycle.close_no_override; [done |].
      unfold Closure.DapiClientMixin in M.
      destruct (Closure.validateDefinition h d); [done |].
      destruct (DapiMixin_validate d); [done |].
      injection M as <-. simpl. by destruct (def_close d).
  - split.
    + unfold Closure.validateDefinition. simpl. by rewrite T.
    + intros m i deps w M O.
      apply Lifecycle.isHealthy_no_override; [done |].
      unfold Closure.DapiClientMixin in M.
      destruct (Closure.validateDefinition h d); [done |].
      destruct (DapiMixin_validate d); [done |].
      injection M as <-. simpl. by destruct (def_isHealthy d).
Qed.

Lemma falsy_override_is_no_override_witness :
  Closure.validateDefinition heap_plain null_overrides = inr tt
  ∧ Closure.close quiet both_overrides 0 (VObj 0) VUndefined
      (one_instance both_overrides)
    ≠ (Closure.Returned VUndefined,
       Closure.set_status CLOSED (one_instance both_overrides))
  ∧ ∃ m, Closure.DapiClientMixin heap_plain null_overrides = inr m
         ∧ Closure.close quiet m 0 (VObj 0) VUndefined (one_instance m)
           = (Closure.Returned VUndefined,
              Closure.set_status CLOSED (one_instance m))
         ∧ Closure.isHealthy quiet m 0 (VObj 0) (one_instance m)
           = (Closure.Returned (VBool true), one_instance m).
Proof.
  split_and!.
  - rewrite (proj1 (proj1 (falsy_override_is_no_override quiet heap_plain
                             null_overrides) eq_refl)).
    vm_compute. reflexivity.
  - vm_compute. discriminate.
  - eexists. split; [vm_compute; reflexivity |]. split.
    + apply (proj2 (proj1 (falsy_override_is_no_override quiet heap_plain
                             null_overrides) eq_refl)); reflexivity.
    + apply (proj2 (proj2 (falsy_override_is_no_override quiet heap_plain
                             null_overrides) eq_refl)); reflexivity.
Defined.

Lemma read_defined h v k :
  v ≠ VUndefined → v ≠ VNull → Bundle.read h v k = inr (get h v k).
Proof. by destruct v. Qed.

(** X4.  The validator of the revision that keeps the status in the
    bundle lets a definition through exactly when each override is falsy or
    a function and the dependencies are neither [undefined] nor [null] and
    hold nothing truthy under [close], [isHealthy] and [status]; it asks
    neither for a client nor for [fns]. *)
Theorem bundle_validateDefinition_accepts_iff (h : heap) (d : definition) :
  Bundle.validateDefinition h d = inr tt
  ↔ (truthy (def_close d) = true → is_function (def_close d) = true)
    ∧ (truthy (def_isHealthy d) = true → is_function (def_isHealthy d) = true)
    ∧ def_dependencies d ≠ VUndefined
    ∧ def_dependencies d ≠ VNull
    ∧ truthy (get h (def_dependencies d) "close") = false
    ∧ truthy (get h (def_dependencies d) "isHealthy") = false
    ∧ truthy (get h (def_dependencies d) "status") = false.
Proof.
  unfold Bundle.validateDefinition. cbv zeta.
  destruct (truthy (def_close d)) eqn:T1, (is_function (def_close d)) eqn:F1;
    cbn [andb negb throws_when];
    try (split; [done | intros (A & _); by specialize (A eq_refl)]).
  all: destruct (truthy (def_isHealthy d)) eqn:T2,
         (is_function (def_isHealthy d)) eqn:F2;
    cbn [andb negb throws_when];
    try (split; [done | intros (_ & A & _); by specialize (A eq_refl)]).
  all: destruct (decide (def_dependencies d = VUndefined)) as [-> | N1];
    [split; [done | by intros (_ & _ & ? & _)] |].
  all: destruct (decide (def_dependencies d = VNull)) as [-> | N2];
    [split; [done | by intros (_ & _ & _ & ? & _)] |].
  all: rewrite read_defined by done.
  all: destruct (truthy (get h (def_dependencies d) "close")) eqn:G1;
    cbn [orb throws_when];
    [split; [done | by intros (_ & _ & _ & _ & ? & _)] |].
  all: destruct (truthy (get h (def_dependencies d) "isHealthy")) eqn:G2;
    cbn [orb throws_when];
    [split; [done | by intros (_ & _ & _ & _ & _ & ? & _)] |].
  all: destruct (truthy (get h (def_dependencies d) "status")) eqn:G3;
    cbn [orb throws_when];
    [split; [done | by intros (_ & _ & _ & _ & _ & _ & ?)] |].
  all: split; [intros _; by split_and! | done].
Qed.

(** X5.  Between the two revisions: whatever the current validator
    accepts, the validator of the revision with the status in the bundle
    accepts too, unless the bundle holds a truthy [status]; the converse
    fails, for one on the bundle [{}] without [fns]. *)
Theorem current_accepted_bundle_accepted :
  (∀ h d, Closure.validateDefinition h d = inr tt →
          truthy (get h (def_dependencies d) "status") = false →
          Bundle.validateDefinition h d = inr tt)
  ∧ Bundle.validateDefinition heap_empty_bundle no_fns = inr tt
  ∧ Closure.validateDefinition heap_empty_bundle no_fns ≠ inr tt.
Proof.
  split; [| split; [vm_compute; reflexivity | vm_compute; discriminate]].
  intros h d. unfold Closure.validateDefinition, Bundle.validateDefinition.
  cbv zeta.
  destruct (truthy (def_close d) && negb (is_function (def_close d)));
    cbn [throws_when]; [done |].
  destruct (truthy (def_isHealthy d) && negb (is_function (def_isHealthy d)));
    cbn [throws_when]; [done |].
  destruct (truthy (def_dependencies d)) eqn:T; cbn [negb throws_when]; [| done].
  rewrite read_defined by (intros E; rewrite E in T; done).
  destruct (truthy (get h (def_dependencies d) "close")
            || truthy (get h (def_dependencies d) "isHealthy"));
    cbn [throws_when orb]; [done |].
  by intros _ ->.
Qed.

Lemma bundle_accepted_reserved_falsy h d :
  Bundle.validateDefinition h d = inr tt →
  truthy (get h (def_dependencies d) "close") = false
  ∧ truthy (get h (def_dependencies d) "isHealthy") = false
  ∧ truthy (get h (def_dependencies d) "status") = false.
Proof.
  unfold Bundle.validateDefinition. cbv zeta.
  destruct (truthy (def_close d) && negb (is_function (def_close d)));
    cbn [throws_when]; [done |].
  destruct (truthy (def_isHealthy d) && negb (is_function (def_isHealthy d)));
    cbn [throws_when]; [done |].
  destruct (Bundle.read h (def_dependencies d) "close"); [done |].
  destruct (truthy (get h (def_dependencies d) "close")),
    (truthy (get h (def_dependencies d) "isHealthy")),
    (truthy (get h (def_dependencies d) "status")); cbn; done.
Qed.

Lemma get_spread h v k : get h v k = default VUndefined (spread h v !! k).
Proof. destruct v; cbn; try done; by rewrite lookup_empty. Qed.

(** X24.  The revision that keeps the status in the bundle hands the
    facade a bundle of its own making: whenever the mixin accepts a
    definition, that bundle reads [open] under [status], whatever falsy
    value the caller had there, agrees with the caller's bundle on every
    other key, and holds nothing truthy under [close] and [isHealthy];
    the overrides are passed on as given. *)
Theorem bundle_mixin_seeds_open (h : heap) (d : definition) (m : Bundle.mixin) :
  Bundle.DapiClientMixin h d = inr m →
  Bundle.dependencies m !! "status" = Some (status_value OPEN)
  ∧ (∀ k, k ≠ "status" →
          Bundle.dependencies m !! k = spread h (def_dependencies d) !! k)
  ∧ truthy (default VUndefined (Bundle.dependencies m !! "close")) = false
  ∧ truthy (default VUndefined (Bundle.dependencies m !! "isHealthy")) = false
  ∧ Bundle._close m = def_close d
  ∧ Bundle._isHealthy m = def_isHealthy d.
Proof.
  unfold Bundle.DapiClientMixin.
  destruct (Bundle.validateDefinition h d) as [e | []] eqn:V; [done |].
  destruct (DapiMixin_validate d) as [e | []]; [done |].
  intros [= <-]. cbn [Bundle.dependencies Bundle._close Bundle._isHealthy].
  destruct (bundle_accepted_reserved_falsy h d V) as (C & I & _).
  split_and!; try done.
  - by rewrite lookup_insert_eq.
  - intros k N. by rewrite lookup_insert_ne.
  - rewrite lookup_insert_ne by done. by rewrite <- get_spread.
  - rewrite lookup_insert_ne by done. by rewrite <- get_spread.
Qed.

Lemma bundle_mixin_seeds_open_witness :
  ∃ m, Bundle.DapiClientMixin heap_blank_status plain = inr m
       ∧ deref heap_blank_status 0 !! "status" = Some (VStr "")
       ∧ Bundle.dependencies m !! "status" = Some (VStr "open")
       ∧ Bundle.dependencies m !! "opts" = Some (VNum 3).
Proof.
  destruct (bundle_mixin_seeds_open heap_blank_status plain _ eq_refl)
    as (S & K & _).
  eexists. split; [reflexivity |].
  split; [vm_compute; reflexivity |]. split; [exact S |].
  rewrite K by done. vm_compute. reflexivity.
Defined.

End Acceptance.

(* ===================================================================== *)
(** ** More on the lifecycle of the current revision *)
(* ===================================================================== *)

Module Shutdown.

Import Closure Samples.

Local Open Scope nat_scope.

Section WithMixin.

Variable behaviour : nat → nat → list arg → outcome.
Variable m : mixin.

Local Abbreviation close := (close behaviour m).
Local Abbreviation isHealthy := (isHealthy behaviour m).
Local Abbreviation invoke := (invoke behaviour m).
Local Abbreviation step := (step behaviour m).
Local Abbreviation run := (run behaviour m).
Local Abbreviation reachable := (reachable behaviour m).
Local Abbreviation drain := (drain behaviour m).
Local Abbreviation all_in_order := (all_in_order m).

(** X6.  A shutdown that succeeds.  When [close] is called in state
    [OPEN] and the user's close function returns a promise, then as soon as
    that promise has been fulfilled, with whatever value, and the
    microtasks have run, the promise that [close] returned is fulfilled
    with [undefined] and the status is [CLOSED]; between the fulfilment and
    the callback the status still reads [CLOSING]. *)
Theorem close_success_reaches_closed i deps delay w f p :
  reachable w → _status w = OPEN → _close m = VFun f →
  behaviour f (length (log w)) [Arg deps; Opts delay] = ReturnsPromise p →
  ∃ d, (close i deps delay w).1 = ReturnedPromise (ThenP d)
    ∧ ∀ es v,
        settled (run es (close i deps delay w).2) !! p = Some (Fulfilled v) →
        thens (drain (run es (close i deps delay w).2)) !! d
        = Some (Some (Fulfilled VUndefined))
        ∧ _status (drain (run es (close i deps delay w).2)) = CLOSED
        ∧ (jobs (run es (close i deps delay w).2) ≠ [] →
           _status (run es (close i deps delay w).2) = CLOSING).
Proof.
  intros Rw O F B. pose proof (Lifecycle.reachable_inv behaviour m w Rw) as I.
  destruct (Lifecycle.close_promise_tracks behaviour m i deps delay w f p I O F B)
    as [Er T].
  exists (length (thens w)). split; [done |]. intros es v S.
  pose proof (Lifecycle.tracks_run behaviour m _ _ es _ T) as T'.
  destruct T' as [C' S' R' J' H' | o C' S' R' J' H' | e' C' S' R' J' H'
                 | v' C' S' R' J' H']; rewrite S' in S; simplify_eq.
  - split_and!; [| | done].
    + unfold Closure.drain. rewrite J'. simpl. unfold tick. rewrite J'. simpl.
      apply list_lookup_insert_eq. by eapply lookup_lt_Some.
    + unfold Closure.drain. rewrite J'. simpl. unfold tick. by rewrite J'.
  - split_and!.
    + unfold Closure.drain. by rewrite J'.
    + unfold Closure.drain. by rewrite J'.
    + by rewrite J'.
Qed.

(** X7.  Whatever the world and whatever happens to it, the status never
    moves backward in the order [OPEN], [CLOSING], [CLOSED]; [CLOSED] is
    final and [OPEN] is never come back to; and a step that changes the
    status is a call of the synthesized [close] or the run of its
    callback, never a call of [status], of [isHealthy] or of a command, a
    new instance or the settling of a promise. *)
Theorem status_only_moves_forward w es :
  rank (_status w) ≤ rank (_status (run es w))
  ∧ (_status w = CLOSED → _status (run es w) = CLOSED)
  ∧ (_status w ≠ OPEN → _status (run es w) ≠ OPEN)
  ∧ (∀ e, _status (step w e) ≠ _status w →
       (∃ i name args, e = Invoke i name args ∧ fns m !! name = Some SynthClose)
       ∨ e = Tick).
Proof.
  split_and!.
  - apply Lifecycle.run_rank.
  - apply Lifecycle.closed_terminal.
  - apply Lifecycle.not_open_forever.
  - intros e. apply Lifecycle.step_status_change.
Qed.

(** *** A class without a close function *)

Lemma never_closing_record c w :
  via c ≠ CloseFn → never_closing w → never_closing (record c w).
Proof.
  intros Hc (N & R & J & T & K). unfold never_closing. simpl.
  rewrite Lifecycle.close_calls_snoc, decide_False by done.
  rewrite K. done.
Qed.

Lemma never_closing_step w e :
  is_function (_close m) = false → never_closing w → never_closing (step w e).
Proof.
  intros F Nw. pose proof Nw as (N & R & J & T & K).
  destruct e as [| i name args | p o |]; simpl.
  - done.
  - unfold Closure.invoke. destruct (instances w !! i) as [deps |]; [| done].
    destruct (fns m !! name) as [[v | | |] |]; try done.
    + destruct v; try done. simpl. by apply never_closing_record.
    + destruct (decide (_status w = OPEN)) as [O | O].
      * rewrite Lifecycle.close_no_override by done. by unfold never_closing.
      * by rewrite Lifecycle.close_not_open.
    + unfold Closure.isHealthy. case_decide; [done |].
      destruct (_isHealthy m); try done. simpl. by apply never_closing_record.
  - unfold settle. destruct (settled w !! p); [done |].
    unfold never_closing. simpl. by rewrite R, J.
  - unfold tick. by rewrite J.
Qed.

(** X8.  In a class without a close function of the user the status is
    never [CLOSING]: in every run [close] takes it from [OPEN] straight to
    [CLOSED], no promise is ever made, nothing is ever pending, and every
    call of [close] returns [undefined]. *)
Theorem no_close_function_never_closing es :
  is_function (_close m) = false →
  _status (run es fresh) ≠ CLOSING
  ∧ thens (run es fresh) = []
  ∧ jobs (run es fresh) = []
  ∧ close_calls (log (run es fresh)) = 0
  ∧ ∀ i deps delay, (close i deps delay (run es fresh)).1 = Returned VUndefined.
Proof.
  intros F.
  assert (never_closing (run es fresh)) as (N & R & J & T & K).
  { apply Lifecycle.run_ind; [by unfold never_closing |].
    intros. by apply never_closing_step. }
  split_and!; try done.
  intros i deps delay. destruct (decide (_status (run es fresh) = OPEN)) as [O | O].
  - by rewrite Lifecycle.close_no_override.
  - by rewrite Lifecycle.close_not_open.
Qed.

(** *** The call record *)

Lemma in_order_instances w w' c :
  (∀ i v, instances w !! i = Some v → instances w' !! i = Some v) →
  in_order m w c → in_order m w' c.
Proof.
  intros Hi [(deps & rest & Ha & Hl) Hv]. split; [| done].
  exists deps, rest. split; [done |]. by apply Hi.
Qed.

Lemma all_in_order_same w w' :
  log w' = log w → instances w' = instances w → all_in_order w → all_in_order w'.
Proof.
  intros El Ei A c Hc. rewrite El in Hc.
  eapply in_order_instances; [| by apply A]. by rewrite Ei.
Qed.

Lemma all_in_order_record c w :
  in_order m w c → all_in_order w → all_in_order (record c w).
Proof.
  intros Hc A c' Hin. simpl in Hin.
  apply elem_of_app in Hin as [Hin | Hin].
  - eapply in_order_instances; [| by apply A]. done.
  - apply list_elem_of_singleton in Hin as ->. done.
Qed.

Lemma all_in_order_close i deps delay w :
  instances w !! i = Some deps →
  all_in_order w → all_in_order (close i deps delay w).2.
Proof.
  intros Hi A. unfold Closure.close. case_decide; [done |].
  destruct (_close m) as [| | | | | | | f] eqn:F;
    try (by eapply all_in_order_same; [| | exact A]).
  assert (all_in_order
            (record {| via := CloseFn; callee := f; this := i;
                       args := [Arg deps; Opts delay];
                       status_on_entry := CLOSING |} (set_status CLOSING w))) as Hr.
  { apply all_in_order_record.
    - split; simpl; [by exists deps, [Opts delay] |].
      split_and!; [done | done | by exists deps, delay].
    - by eapply all_in_order_same; [| | exact A]. }
  destruct (behaviour f _ _); simpl.
  - by eapply all_in_order_same; [| | exact Hr].
  - destruct (settled _ !! _); by eapply all_in_order_same; [| | exact Hr].
  - done.
Qed.

Lemma all_in_order_step w e : all_in_order w → all_in_order (step w e).
Proof.
  intros A. destruct e as [| i name args | p o |]; simpl.
  - intros c Hc. eapply in_order_instances; [| by apply A].
    intros i v L. simpl. by apply lookup_app_l_Some.
  - unfold Closure.invoke. destruct (instances w !! i) as [deps |] eqn:Hi; [| done].
    destruct (fns m !! name) as [[v | | |] |] eqn:L; try done.
    + destruct v; try done. simpl. apply all_in_order_record; [| done].
      split; simpl; [by exists deps, args | done].
    + by apply all_in_order_close.
    + unfold Closure.isHealthy. case_decide as N; [done |].
      destruct (_isHealthy m) as [| | | | | | | f] eqn:F; try done. simpl.
      apply all_in_order_record; [| done].
      split; simpl; [by exists deps, [] |].
      split_and!; [done | | by exists deps].
      destruct (_status w); done.
  - unfold settle. destruct (settled w !! p); [done |].
    by eapply all_in_order_same; [| | exact A].
  - unfold tick. destruct (jobs w) as [| [d [v | e]] js]; [done | |];
      by eapply all_in_order_same; [| | exact A].
Qed.

(** X9.  Every call of a user function that a run records is in order: it
    went to the function the class holds for its slot, with the
    dependency bundle of the instance it was called on as first argument;
    the close function was given that bundle and [{delay}] and was entered
    with the status [CLOSING]; the health check was given the bundle alone
    and was entered with the status [OPEN], so that it is never called on
    a client that is closing or closed. *)
Theorem call_record_in_order es c :
  c ∈ log (run es fresh) → in_order m (run es fresh) c.
Proof.
  revert c. change (all_in_order (run es fresh)).
  apply Lifecycle.run_ind.
  - intros c Hc. by apply elem_of_nil in Hc.
  - intros. by apply all_in_order_step.
Qed.

(** X10.  One class, one call: in every run of a class, whatever the
    number of its instances and of the calls of [close] on them, the
    user's close function is called once at most, and not at all before
    the status has left [OPEN]. *)
Theorem one_close_call_per_class es :
  close_calls (log (run es fresh)) ≤ 1
  ∧ (_status (run es fresh) = OPEN → close_calls (log (run es fresh)) = 0).
Proof.
  pose proof (Lifecycle.inv_run behaviour m es fresh (Lifecycle.inv_fresh m))
    as (I1 & I2 & _).
  split; [| done].
  destruct (decide (_status (run es fresh) = OPEN)) as [O | O].
  - rewrite I1 by done. lia.
  - rewrite I2 by done. destruct (is_function (_close m)); lia.
Qed.

End WithMixin.

Lemma close_success_reaches_closed_witness :
  ∃ d,
    (close close_async both_overrides 0 (VObj 0) VUndefined
       (one_instance both_overrides)).1 = ReturnedPromise (ThenP d)
    ∧ thens (drain close_async both_overrides
               (run close_async both_overrides [Settle 0 (Fulfilled (VStr "bye"))]
                  (close close_async both_overrides 0 (VObj 0) VUndefined
                     (one_instance both_overrides)).2)) !! d
      = Some (Some (Fulfilled VUndefined))
    ∧ _status (drain close_async both_overrides
                 (run close_async both_overrides [Settle 0 (Fulfilled (VStr "bye"))]
                    (close close_async both_overrides 0 (VObj 0) VUndefined
                       (one_instance both_overrides)).2)) = CLOSED.
Proof.
  destruct (close_success_reaches_closed close_async both_overrides
              0 (VObj 0) VUndefined (one_instance both_overrides) 5 0
              (ex_intro _ [New] eq_refl) eq_refl eq_refl eq_refl) as (d & Hr & Hs).
  exists d. split; [exact Hr |].
  destruct (Hs [Settle 0 (Fulfilled (VStr "bye"))] (VStr "bye") eq_refl)
    as (H1 & H2 & _).
  exact (conj H1 H2).
Defined.

Lemma no_close_function_never_closing_witness :
  _status (run quiet no_overrides [New; Invoke 0 "close" []; Tick; New] fresh)
  ≠ CLOSING
  ∧ thens (run quiet no_overrides [New; Invoke 0 "close" []; Tick; New] fresh) = [].
Proof.
  destruct (no_close_function_never_closing quiet no_overrides
              [New; Invoke 0 "close" []; Tick; New] eq_refl) as (H1 & H2 & _).
  exact (conj H1 H2).
Defined.

Lemma call_record_in_order_witness :
  in_order both_overrides
    (run close_async both_overrides [New; Invoke 0 "close" [Opts (VNum 1)]] fresh)
    {| via := CloseFn; callee := 5; this := 0;
       args := [Arg (VObj 0); Opts (VNum 1)]; status_on_entry := CLOSING |}.
Proof.
  apply (call_record_in_order close_async both_overrides
           [New; Invoke 0 "close" [Opts (VNum 1)]]).
  vm_compute. apply list_elem_of_here.
Defined.

(** X11.  [createDapiClient] fails exactly as [DapiClientMixin] does,
    with a [TypeError]; and the client it returns is the first and only
    instance of a class of its own: the definition has passed the
    validator, nothing has been called yet, the instance holds the bundle
    of the definition, [status] answers [open], and [isHealthy] answers
    [true] when the definition has no health check. *)
Theorem createDapiClient_starts_open
    (behaviour : nat → nat → list arg → outcome) (h : heap) (d : definition) :
  (∀ e, createDapiClient h d = inl e →
        DapiClientMixin h d = inl e ∧ is_TypeError e = true)
  ∧ (∀ m w, createDapiClient h d = inr (m, w) →
       validateDefinition h d = inr tt
       ∧ reachable behaviour m w
       ∧ _close m = def_close d ∧ _isHealthy m = def_isHealthy d
       ∧ status w = OPEN ∧ log w = [] ∧ instances w = [def_dependencies d]
       ∧ invoke behaviour m 0 "status" [] w = (Returned (VStr "open"), w)
       ∧ (is_function (def_isHealthy d) = false →
          invoke behaviour m 0 "isHealthy" [] w = (Returned (VBool true), w))).
Proof.
  unfold createDapiClient. split.
  - intros e. destruct (DapiClientMixin h d) as [e' | m] eqn:M; [| done].
    intros [= <-]. split; [done |]. by eapply Validation.current_mixin_TypeError.
  - intros m w. destruct (DapiClientMixin h d) as [e' | m'] eqn:M; [done |].
    intros [= <- <-]. unfold DapiClientMixin in M.
    destruct (validateDefinition h d) as [| []] eqn:V; [done |].
    destruct (DapiMixin_validate d); [done |]. injection M as <-.
    split_and!; try done.
    + by exists [New].
    + unfold Closure.invoke. simpl. by rewrite Lifecycle.merged_fns_status.
    + intros F. unfold Closure.invoke. simpl.
      rewrite Lifecycle.merged_fns_isHealthy.
      by apply Lifecycle.isHealthy_no_override.
Qed.

Lemma createDapiClient_starts_open_witness :
  createDapiClient heap_plain plain = inr (no_overrides, one_instance no_overrides)
  ∧ invoke quiet no_overrides 0 "isHealthy" [] (one_instance no_overrides)
    = (Returned (VBool true), one_instance no_overrides).
Proof.
  assert (createDapiClient heap_plain plain
          = inr (no_overrides, one_instance no_overrides)) as E.
  { vm_compute. reflexivity. }
  split; [exact E |].
  destruct (proj2 (createDapiClient_starts_open quiet heap_plain plain)
              no_overrides (one_instance no_overrides) E)
    as (_ & _ & _ & _ & _ & _ & _ & _ & H).
  apply H. reflexivity.
Defined.

End Shutdown.

(* ===================================================================== *)
(** ** More on the class based revision: constructor, getters, setters *)
(* ===================================================================== *)

Module Store.

Import ClassMixin Samples.

Local Open Scope nat_scope.

Lemma strict_eq_true a b : strict_eq a b = true → a = b.
Proof.
  unfold strict_eq. destruct a, b; try done; by intros ?%bool_decide_eq_true.
Qed.

Lemma strict_eq_truthy a : truthy a = true → strict_eq a a = true.
Proof. unfold strict_eq. destruct a; try done; intros _; by apply bool_decide_eq_true. Qed.

(** X12.  The constructor copies the bundle.  When it succeeds, the seed
    is an object of the heap, which is left as it was; a new object has
    been added, holding the keys of the seed and, over them, the bound
    [close], [isHealthy] and [status]; the store refers to the new object;
    the status is [OPEN], the overrides are those given, and the client is
    that of the seed. *)
Theorem constructor_copies_bundle close isHealthy bound h seed st :
  new close isHealthy bound h seed = inr st →
  ∃ l, seed = VObj l ∧ l < length h
    ∧ objects st
      = h ++ [ <["status" := VFun (bound "status")]>
                 (<["isHealthy" := VFun (bound "isHealthy")]>
                    (<["close" := VFun (bound "close")]> (deref h l))) ]
    ∧ store st = VObj (length h)
    ∧ _status st = OPEN ∧ _close st = close ∧ _isHealthy st = isHealthy
    ∧ getClient st = get h seed "client"
    ∧ (∀ k, k ≠ "close" → k ≠ "isHealthy" → k ≠ "status" →
         get (objects st) (store st) k = get h seed k).
Proof.
  unfold new. cbn [getDependencies store objects].
  destruct seed as [| | | | | | l |]; try (simpl; done).
  destruct (truthy (get h (VObj l) "client")) eqn:T; [| done]. cbn [negb].
  unfold setDependencies.
  cbn [truthy negb with_objects objects store getDependencies _status _close
       _isHealthy].
  rewrite Setters.get_alloc, !lookup_insert_ne by done.
  change (default VUndefined (spread h (VObj l) !! "client"))
    with (get h (VObj l) "client").
  rewrite T. cbn [negb]. pose proof (Setters.get_truthy_valid _ _ _ T) as L.
  unfold strict_eq. rewrite bool_decide_eq_false_2 by (intros [= ->]; lia).
  intros [= <-]. exists l.
  cbn [super_setDependencies with_objects store objects _status _close _isHealthy].
  split_and!; try done.
  - unfold getClient, getDependencies.
    cbn [super_setDependencies with_objects store objects].
    by rewrite Setters.get_alloc, !lookup_insert_ne.
  - intros k K1 K2 K3. by rewrite Setters.get_alloc, !lookup_insert_ne.
Qed.

Lemma constructor_copies_bundle_witness :
  ∃ l, VObj 0 = VObj l ∧ l < length heap_two_keys
    ∧ store wrapped = VObj (length heap_two_keys)
    ∧ getClient wrapped = get heap_two_keys (VObj 0) "client".
Proof.
  destruct (constructor_copies_bundle VUndefined VUndefined bound_ids
              heap_two_keys (VObj 0) wrapped eq_refl)
    as (l & H1 & H2 & _ & H4 & _ & _ & _ & H8 & _).
  exists l. exact (conj H1 (conj H2 (conj H4 H8))).
Defined.

(** X13.  The constructor succeeds exactly when the seed bundle holds a
    truthy client, and throws a [TypeError] otherwise: on a bundle without
    client, and on a store that holds no bundle at all. *)
Theorem constructor_needs_client close isHealthy bound h seed :
  ((∃ st, new close isHealthy bound h seed = inr st)
   ↔ truthy (get h seed "client") = true)
  ∧ (∀ e, new close isHealthy bound h seed = inl e → is_TypeError e = true).
Proof.
  unfold new. cbn [getDependencies store objects].
  destruct seed as [| | | | | | l |];
    try (simpl; split; [split; [by intros [? ?] | done] | by intros e [= <-]]).
  destruct (truthy (get h (VObj l) "client")) eqn:T; cbn [negb];
    [| split; [split; [by intros [? ?] | done] | by intros e [= <-]]].
  unfold setDependencies.
  cbn [truthy negb with_objects objects store getDependencies _status _close
       _isHealthy].
  rewrite Setters.get_alloc, !lookup_insert_ne by done.
  change (default VUndefined (spread h (VObj l) !! "client"))
    with (get h (VObj l) "client").
  rewrite T. cbn [negb]. destruct (strict_eq _ _); split; try done;
    split; try done; intros _; by eexists.
Qed.

(** *** What the setters keep *)

Lemma setClient_fields c st :
  _status (setClient c st).2 = _status st
  ∧ _close (setClient c st).2 = _close st
  ∧ _isHealthy (setClient c st).2 = _isHealthy st.
Proof.
  unfold setClient. destruct (truthy c); simpl; [| done].
  destruct (strict_eq _ c); simpl; [done |].
  unfold assign. by destruct (getDependencies st).
Qed.

Lemma setDependencies_fields d st :
  _status (setDependencies d st).2 = _status st
  ∧ _close (setDependencies d st).2 = _close st
  ∧ _isHealthy (setDependencies d st).2 = _isHealthy st.
Proof.
  unfold setDependencies. destruct (truthy d); simpl; [| done].
  destruct (truthy (get (objects st) d "client")); simpl; [| done].
  by destruct (strict_eq _ d).
Qed.

Lemma apply_fields st o :
  _status (apply st o) = _status st
  ∧ _close (apply st o) = _close st
  ∧ _isHealthy (apply st o) = _isHealthy st.
Proof.
  destruct o; simpl; [apply setClient_fields | apply setDependencies_fields | done].
Qed.

Lemma run_fields os st :
  _status (run os st) = _status st
  ∧ _close (run os st) = _close st
  ∧ _isHealthy (run os st) = _isHealthy st.
Proof.
  revert st. induction os as [| o os IH]; intros st; [done |]. simpl.
  destruct (IH (apply st o)) as (-> & -> & ->). apply apply_fields.
Qed.

Lemma new_fields close isHealthy bound h seed st :
  new close isHealthy bound h seed = inr st →
  _status st = OPEN ∧ _close st = close ∧ _isHealthy st = isHealthy.
Proof.
  unfold new. cbn [getDependencies store objects].
  destruct seed as [| | | | | | l |]; try (simpl; done).
  destruct (truthy (get h (VObj l) "client")); [| done]. cbn [negb].
  intros E.
  match type of E with
  | match setDependencies ?d ?s with _ => _ end = _ =>
      pose proof (setDependencies_fields d s) as (F1 & F2 & F3);
      destruct (setDependencies d s) as [[e | []] st']; [done |]
  end.
  injection E as <-. simpl in F1, F2, F3. by rewrite F1, F2, F3.
Qed.

(** X14.  Once constructed, an instance never loses its client: after
    any sequence of calls of [setClient] and [setDependencies], failed ones
    included, and of allocations around them, the store still refers to an
    object of the heap, [getClient] returns a truthy value, and the status
    and the overrides are those of the construction: the setters do not
    touch the lifecycle. *)
Theorem client_never_lost close isHealthy bound h seed st os :
  new close isHealthy bound h seed = inr st →
  wf (run os st)
  ∧ truthy (getClient (run os st)) = true
  ∧ _status (run os st) = OPEN
  ∧ _close (run os st) = close
  ∧ _isHealthy (run os st) = isHealthy.
Proof.
  intros N. pose proof (Setters.wf_run os st (Setters.new_wf _ _ _ _ _ _ N)) as W.
  destruct (new_fields _ _ _ _ _ _ N) as (S & C & H).
  destruct (run_fields os st) as (-> & -> & ->).
  split_and!; try done.
  destruct W as (l' & Hs & _ & T). unfold getClient, getDependencies.
  by rewrite Hs.
Qed.

Lemma client_never_lost_witness :
  truthy (getClient (run [SetClient VNull; Allocate ∅; SetDependencies (VObj 4);
                          SetClient (VObj 4); SetDependencies (VObj 0)] wrapped))
  = true.
Proof.
  exact (proj1 (proj2 (client_never_lost VUndefined VUndefined bound_ids
                         heap_two_keys (VObj 0) wrapped
                         [SetClient VNull; Allocate ∅; SetDependencies (VObj 4);
                          SetClient (VObj 4); SetDependencies (VObj 0)]
                         eq_refl))).
Defined.

(** X15.  [setDependencies] with a truthy bundle that holds a truthy
    client succeeds and makes that very reference the current bundle (no
    copy, and the bound methods of the construction are not carried over):
    [getDependencies] returns it, [getClient] returns its client, and the
    heap and the lifecycle are as before. *)
Theorem setDependencies_keeps_reference newDeps st :
  truthy newDeps = true → truthy (get (objects st) newDeps "client") = true →
  (setDependencies newDeps st).1 = inr tt
  ∧ getDependencies (setDependencies newDeps st).2 = newDeps
  ∧ getClient (setDependencies newDeps st).2 = get (objects st) newDeps "client"
  ∧ objects (setDependencies newDeps st).2 = objects st
  ∧ _status (setDependencies newDeps st).2 = _status st.
Proof.
  intros T C. unfold setDependencies, getClient, getDependencies.
  rewrite T, C. cbn [negb].
  destruct (strict_eq (store st) newDeps) eqn:E; cbn [fst snd]; [| done].
  apply strict_eq_true in E. by rewrite E.
Qed.

Lemma setDependencies_keeps_reference_witness :
  getDependencies (setDependencies (VObj 0) wrapped).2 = VObj 0
  ∧ getClient (setDependencies (VObj 0) wrapped).2 = VObj 1
  ∧ get (objects (setDependencies (VObj 0) wrapped).2)
        (getDependencies (setDependencies (VObj 0) wrapped).2) "status"
    = VUndefined.
Proof.
  destruct (setDependencies_keeps_reference (VObj 0) wrapped eq_refl eq_refl)
    as (_ & H2 & H3 & _).
  split_and!; [exact H2 | exact H3 | vm_compute; reflexivity].
Defined.

Lemma setDependencies_accepted l st :
  truthy (get (objects st) (VObj l) "client") = true →
  store (setDependencies (VObj l) st).2 = VObj l
  ∧ objects (setDependencies (VObj l) st).2 = objects st.
Proof.
  intros C. unfold setDependencies, getDependencies. rewrite C. cbn [truthy negb].
  destruct (strict_eq (store st) (VObj l)) eqn:E; cbn [snd]; [| done].
  by apply strict_eq_true in E.
Qed.

(** X16.  The two setters together: the bundle handed to
    [setDependencies] is kept by reference, so that a later [setClient]
    with another client writes into the caller's own object, and into no
    other. *)
Theorem setClient_writes_into_callers_bundle l newClient st :
  l < length (objects st) →
  truthy (get (objects st) (VObj l) "client") = true →
  truthy newClient = true →
  strict_eq (get (objects st) (VObj l) "client") newClient = false →
  (setClient newClient (setDependencies (VObj l) st).2).1 = inr tt
  ∧ getDependencies (setClient newClient (setDependencies (VObj l) st).2).2 = VObj l
  ∧ get (objects (setClient newClient (setDependencies (VObj l) st).2).2)
        (VObj l) "client" = newClient
  ∧ ∀ l', l' ≠ l →
      objects (setClient newClient (setDependencies (VObj l) st).2).2 !! l'
      = objects st !! l'.
Proof.
  intros L C T E.
  destruct (setDependencies_accepted l st C) as (S & O).
  unfold setClient, getDependencies. rewrite T, S, O, E.
  cbn [negb assign fst snd with_objects objects store]. rewrite O.
  split_and!; try done.
  - simpl. unfold deref at 1. rewrite list_lookup_insert_eq by done.
    simpl. by rewrite lookup_insert_eq.
  - intros l' N. by apply list_lookup_insert_ne.
Qed.

Lemma setClient_writes_into_callers_bundle_witness :
  get (objects (setClient (VObj 2) (setDependencies (VObj 0) wrapped).2).2)
      (VObj 0) "client" = VObj 2.
Proof.
  exact (proj1 (proj2 (proj2 (setClient_writes_into_callers_bundle 0 (VObj 2) wrapped
                                ltac:(vm_compute; lia) eq_refl eq_refl eq_refl)))).
Defined.

(** X17.  [setClient] and [getClient] round trip, and setting the same
    client again does nothing: on an instance whose store refers to an
    object of the heap, after [setClient] with a truthy client
    [getClient] returns that client, and a second [setClient] with it
    succeeds and leaves the state as it is. *)
Theorem setClient_then_getClient l newClient st :
  store st = VObj l → l < length (objects st) → truthy newClient = true →
  (setClient newClient st).1 = inr tt
  ∧ getClient (setClient newClient st).2 = newClient
  ∧ setClient newClient (setClient newClient st).2
    = (inr tt, (setClient newClient st).2).
Proof.
  intros S L T.
  assert ((setClient newClient st).1 = inr tt
          ∧ store (setClient newClient st).2 = VObj l
          ∧ getClient (setClient newClient st).2 = newClient) as (H1 & H2 & H3).
  { unfold setClient, getClient, getDependencies. rewrite T, S. cbn [negb].
    destruct (strict_eq _ newClient) eqn:E; cbn [fst snd].
    - apply strict_eq_true in E. by rewrite S.
    - cbn [assign fst snd with_objects objects store]. split_and!; try done.
      rewrite S. simpl. unfold deref at 1. rewrite list_lookup_insert_eq by done.
      simpl. by rewrite lookup_insert_eq. }
  split_and!; try done.
  unfold setClient at 1. rewrite T. cbn [negb].
  fold (getClient (setClient newClient st).2).
  by rewrite H3, strict_eq_truthy.
Qed.

Lemma setClient_then_getClient_witness :
  getClient (setClient (VObj 4) wrapped_and_spare).2 = VObj 4
  ∧ getClient (setClient (VStr "c") wrapped_and_spare).2 = VStr "c".
Proof.
  split.
  - exact (proj1 (proj2 (setClient_then_getClient 3 (VObj 4) wrapped_and_spare
                           eq_refl ltac:(vm_compute; lia) eq_refl))).
  - exact (proj1 (proj2 (setClient_then_getClient 3 (VStr "c") wrapped_and_spare
                           eq_refl ltac:(vm_compute; lia) eq_refl))).
Defined.

End Store.

(* ===================================================================== *)
(** ** The lifecycle of the class based revision *)
(* ===================================================================== *)

Module ClassShutdown.

Import Closure ClassAsync Samples.

Local Open Scope nat_scope.

Section WithBehaviour.

Variable behaviour : nat → nat → list arg → outcome.

Local Abbreviation close := (close behaviour).
Local Abbreviation isHealthy := (isHealthy behaviour).
Local Abbreviation step := (step behaviour).
Local Abbreviation run := (run behaviour).
Local Abbreviation reachable := (reachable behaviour).
Local Abbreviation drain := (drain behaviour).

Lemma class_run_app es1 es2 w : run (es1 ++ es2) w = run es2 (run es1 w).
Proof. apply foldl_app. Qed.

Lemma class_run_snoc es e w : run (es ++ [e]) w = step (run es w) e.
Proof. by rewrite class_run_app. Qed.

Lemma class_run_ind (P : world → Prop) (w : world) :
  P w → (∀ w' e, P w' → P (step w' e)) → ∀ es, P (run es w).
Proof.
  intros H0 HS es. induction es as [| e es IH] using rev_ind; [done |].
  rewrite class_run_snoc. by apply HS.
Qed.

(** *** [close], case by case *)

Lemma class_close_not_open delay w :
  ClassMixin._status (self w) ≠ OPEN →
  close delay w = finished (Fulfilled VUndefined) w.
Proof. intros N. unfold ClassAsync.close. by rewrite decide_True. Qed.

Lemma class_close_no_override delay w :
  ClassMixin._status (self w) = OPEN → truthy (ClassMixin._close (self w)) = false →
  close delay w = finished (Fulfilled VUndefined) (set_status CLOSED w).
Proof.
  intros O T. unfold ClassAsync.close.
  rewrite decide_False by (by rewrite O; auto). by rewrite T.
Qed.

Lemma close_not_callable delay w :
  ClassMixin._status (self w) = OPEN → truthy (ClassMixin._close (self w)) = true →
  is_function (ClassMixin._close (self w)) = false →
  close delay w = finished (Rejected (not_a_function "_close")) (set_status CLOSING w).
Proof.
  intros O T F. unfold ClassAsync.close.
  rewrite decide_False by (by rewrite O; auto). rewrite T. simpl.
  by destruct (ClassMixin._close (self w)).
Qed.

Lemma class_close_override delay w f :
  ClassMixin._status (self w) = OPEN → ClassMixin._close (self w) = VFun f →
  close delay w =
    let deps := ClassMixin.getDependencies (self w) in
    let w1 := record {| via := CloseFn; callee := f; this := 0;
                        args := [Arg deps; Opts delay];
                        status_on_entry := CLOSING |} (set_status CLOSING w) in
    match behaviour f (length (log w)) [Arg deps; Opts delay] with
    | Throws e => finished (Rejected e) w1
    | Returns v => await_value v w1
    | ReturnsPromise p => await_promise p w1
    end.
Proof.
  intros O F. unfold ClassAsync.close.
  rewrite decide_False by (by rewrite O; auto). rewrite F. simpl. by rewrite F.
Qed.

(** The four ways of a call of [close]. *)
Lemma close_cases delay w :
  (ClassMixin._status (self w) ≠ OPEN
   ∧ close delay w = finished (Fulfilled VUndefined) w)
  ∨ (ClassMixin._status (self w) = OPEN
     ∧ truthy (ClassMixin._close (self w)) = false
     ∧ close delay w = finished (Fulfilled VUndefined) (set_status CLOSED w))
  ∨ (ClassMixin._status (self w) = OPEN
     ∧ truthy (ClassMixin._close (self w)) = true
     ∧ is_function (ClassMixin._close (self w)) = false
     ∧ close delay w
       = finished (Rejected (not_a_function "_close")) (set_status CLOSING w))
  ∨ (∃ f, ClassMixin._status (self w) = OPEN
       ∧ ClassMixin._close (self w) = VFun f
       ∧ close delay w =
           let deps := ClassMixin.getDependencies (self w) in
           let w1 := record {| via := CloseFn; callee := f; this := 0;
                               args := [Arg deps; Opts delay];
                               status_on_entry := CLOSING |} (set_status CLOSING w) in
           match behaviour f (length (log w)) [Arg deps; Opts delay] with
           | Throws e => finished (Rejected e) w1
           | Returns v => await_value v w1
           | ReturnsPromise p => await_promise p w1
           end).
Proof.
  destruct (decide (ClassMixin._status (self w) = OPEN)) as [O | N];
    [| left; split; [done |]; by apply class_close_not_open].
  right. destruct (truthy (ClassMixin._close (self w))) eqn:T;
    [| left; split_and!; try done; by apply class_close_no_override].
  right. destruct (ClassMixin._close (self w)) as [| | | | | | | f] eqn:F;
    try (left; split_and!; try done; apply close_not_callable; by rewrite ?F).
  right. exists f. split_and!; try done. by apply class_close_override.
Qed.

(** *** Steps that leave the asynchronous part alone *)

Lemma class_same_async_refl w : same_async w w.
Proof. by unfold same_async. Qed.

Lemma same_async_finished o w : same_async w (finished o w).2.
Proof.
  unfold same_async. simpl. split_and!; try done.
  intros d x L. by apply lookup_app_l_Some.
Qed.

Lemma same_async_record c w : same_async w (record c w).
Proof. by unfold same_async. Qed.

Lemma same_async_close delay w :
  ClassMixin._status (self w) ≠ OPEN → same_async w (close delay w).2.
Proof. intros N. rewrite class_close_not_open by done. apply same_async_finished. Qed.

Lemma same_async_isHealthy w : same_async w (isHealthy w).2.
Proof.
  unfold ClassAsync.isHealthy. case_decide; [apply class_same_async_refl |].
  destruct (truthy _); [| apply class_same_async_refl].
  destruct (ClassMixin._isHealthy (self w)); apply class_same_async_refl || apply same_async_record.
Qed.

Lemma same_async_store o w : same_async w (with_self (ClassMixin.apply (self w) o) w).
Proof.
  unfold same_async. simpl. split_and!; try done.
  by destruct (Store.apply_fields (self w) o) as (-> & _).
Qed.

(** A step that is no call of [close] on an open client, no settling and
    no continuation. *)
Lemma same_async_step w e :
  ClassMixin._status (self w) ≠ OPEN →
  (∀ p o, e ≠ Settle p o) → e ≠ Tick → same_async w (step w e).
Proof.
  intros N Hs Ht. destruct e as [delay | | o | p o |]; simpl.
  - by apply same_async_close.
  - apply same_async_isHealthy.
  - apply same_async_store.
  - by destruct (Hs p o).
  - done.
Qed.

(** *** The status only moves forward *)

Lemma class_close_status delay w :
  ClassMixin._status (self (close delay w).2) = ClassMixin._status (self w)
  ∨ (ClassMixin._status (self w) = OPEN
     ∧ ClassMixin._status (self (close delay w).2) ≠ OPEN).
Proof.
  destruct (close_cases delay w)
    as [[N ->] | [(O & T & ->) | [(O & T & F & ->) | (f & O & F & ->)]]].
  - by left.
  - right. by split.
  - right. by split.
  - right. split; [done |]. cbv zeta.
    destruct (behaviour f _ _); simpl; try done.
    unfold await_promise. simpl. by destruct (_ !! _).
Qed.

Lemma class_close_leaves_open delay w :
  ClassMixin._status (self w) = OPEN →
  ClassMixin._status (self (close delay w).2) ≠ OPEN.
Proof.
  intros O. destruct (class_close_status delay w) as [E | [_ N]]; [| done].
  destruct (close_cases delay w)
    as [[N ->] | [(_ & T & Ec) | [(_ & T & F & Ec) | (f & _ & F & Ec)]]];
    [done | | |]; rewrite Ec; try done.
  cbv zeta. destruct (behaviour f _ _); simpl; try done.
  unfold await_promise. simpl. by destruct (_ !! _).
Qed.

Lemma step_status w e :
  ClassMixin._status (self (step w e)) = ClassMixin._status (self w)
  ∨ ((∃ delay, e = Close delay) ∧ ClassMixin._status (self w) = OPEN
     ∧ ClassMixin._status (self (step w e)) ≠ OPEN)
  ∨ (e = Tick ∧ ClassMixin._status (self (step w e)) = CLOSED).
Proof.
  destruct e as [delay | | o | p o |]; simpl.
  - destruct (class_close_status delay w) as [-> | [O N]]; [by left |].
    right. left. split_and!; try done. by exists delay.
  - left. by destruct (same_async_isHealthy w) as (-> & _).
  - left. by destruct (Store.apply_fields (self w) o) as (-> & _).
  - left. unfold settle. by destruct (_ !! _).
  - unfold tick. destruct (jobs w) as [| [d [v | e]] js]; [by left | | by left].
    right. right. done.
Qed.

Lemma class_step_rank w e :
  rank (ClassMixin._status (self w)) ≤ rank (ClassMixin._status (self (step w e))).
Proof.
  destruct (step_status w e) as [-> | [(_ & O & N) | (_ & C)]]; [done | |].
  - rewrite O. simpl. lia.
  - rewrite C. destruct (ClassMixin._status (self w)); simpl; lia.
Qed.

Lemma class_run_rank es w :
  rank (ClassMixin._status (self w)) ≤ rank (ClassMixin._status (self (run es w))).
Proof.
  induction es as [| e es IH] using rev_ind; [done |].
  rewrite class_run_snoc. etrans; [exact IH |]. apply class_step_rank.
Qed.

Lemma class_not_open_forever es w :
  ClassMixin._status (self w) ≠ OPEN → ClassMixin._status (self (run es w)) ≠ OPEN.
Proof.
  intros N O. pose proof (class_run_rank es w) as R. rewrite O in R.
  destruct (ClassMixin._status (self w)); simpl in R; done || lia.
Qed.

Lemma class_closed_terminal es w :
  ClassMixin._status (self w) = CLOSED → ClassMixin._status (self (run es w)) = CLOSED.
Proof.
  intros C. pose proof (class_run_rank es w) as R. rewrite C in R.
  destruct (ClassMixin._status (self (run es w))); simpl in R; done || lia.
Qed.

(** *** The invariant *)

Lemma inv_same w w' :
  same_async w w' → close_calls (log w') = close_calls (log w) → inv w → inv w'.
Proof.
  intros (Es & Ese & Ew & Ej & _) El (I1 & I2 & I3 & I4 & I5).
  unfold inv. by rewrite Es, Ese, Ew, Ej, El.
Qed.

Lemma inv_start st : inv (start st).
Proof.
  unfold inv, close_calls. simpl. split_and!; try done; try lia.
  all: intros r Hr; by apply elem_of_nil in Hr.
Qed.

Ltac close_inv :=
  split_and!; try done; try (simpl; lia);
  try (intros ? Hr; by apply elem_of_nil in Hr).

Lemma class_inv_close delay w : inv w → inv (close delay w).2.
Proof.
  intros I. pose proof I as (I1 & I2 & I3 & I4 & I5).
  destruct (close_cases delay w)
    as [[N ->] | [(O & T & ->) | [(O & T & F & ->) | (f & O & F & ->)]]].
  - eapply inv_same; [apply same_async_finished | done | done].
  - destruct (I3 ltac:(by rewrite O)) as [W J].
    unfold inv. simpl. rewrite W, J, (I1 O). close_inv.
  - destruct (I3 ltac:(by rewrite O)) as [W J].
    unfold inv. simpl. rewrite W, J, (I1 O). close_inv.
  - destruct (I3 ltac:(by rewrite O)) as [W J]. cbv zeta.
    destruct (behaviour f _ _) as [v | p | e]; unfold inv; simpl.
    + rewrite Lifecycle.close_calls_snoc, (I1 O), W, J. simpl. close_inv.
    + unfold await_promise. simpl. destruct (settled w !! p) eqn:S; simpl;
        rewrite Lifecycle.close_calls_snoc, (I1 O), W, J; simpl; close_inv.
      intros r Hr. apply list_elem_of_singleton in Hr. by subst.
    + rewrite Lifecycle.close_calls_snoc, (I1 O), W, J. simpl. close_inv.
Qed.

Lemma class_inv_isHealthy w : inv w → inv (isHealthy w).2.
Proof.
  intros I. eapply inv_same; [apply same_async_isHealthy | | done].
  unfold ClassAsync.isHealthy. case_decide; [done |].
  destruct (truthy _); [| done].
  destruct (ClassMixin._isHealthy (self w)); try done. simpl.
  rewrite Lifecycle.close_calls_snoc. simpl. lia.
Qed.

Lemma class_inv_settle p o w : inv w → inv (settle p o w).
Proof.
  intros I. pose proof I as (I1 & I2 & I3 & I4 & I5). unfold settle.
  destruct (settled w !! p) eqn:S; [done |].
  unfold inv. simpl. split_and!.
  - exact I1.
  - exact I2.
  - intros N. destruct (I3 N) as [R J]. by rewrite R, J.
  - rewrite length_app, length_fmap.
    destruct (waiting w) as [| r [| r' rs]]; simpl in I4 |- *; [lia | | lia].
    rewrite !filter_cons, !filter_nil. repeat case_decide; simpl; lia || done.
  - intros r Hr. apply list_elem_of_filter in Hr as [Hne Hr].
    rewrite lookup_insert_ne by done. by apply I5.
Qed.

Lemma class_inv_tick w : inv w → inv (tick w).
Proof.
  intros I. pose proof I as (I1 & I2 & I3 & I4 & I5). unfold tick.
  destruct (jobs w) as [| [d [v | e]] js] eqn:J; [done | |].
  - simpl in I4. unfold inv. simpl. split_and!.
    + done.
    + exact I2.
    + intros _. split.
      * destruct (waiting w); [done | simpl in I4; lia].
      * destruct js; [done | simpl in I4; lia].
    + lia.
    + exact I5.
  - simpl in I4. unfold inv. simpl. split_and!.
    + exact I1.
    + exact I2.
    + intros N. by destruct (I3 N).
    + lia.
    + exact I5.
Qed.

Lemma class_inv_step w e : inv w → inv (step w e).
Proof.
  destruct e as [delay | | o | p o |]; simpl.
  - apply class_inv_close.
  - apply class_inv_isHealthy.
  - intros I. eapply inv_same; [apply same_async_store | done | done].
  - apply class_inv_settle.
  - apply class_inv_tick.
Qed.

Lemma class_inv_run es w : inv w → inv (run es w).
Proof. intros I. apply class_run_ind; [done |]. intros. by apply class_inv_step. Qed.

Lemma class_reachable_inv w : reachable w → inv w.
Proof. intros (st & es & _ & ->). apply class_inv_run, inv_start. Qed.

(** *** A failed shutdown stays [CLOSING] *)

Lemma class_stuck_same w w' : same_async w w' → stuck w → stuck w'.
Proof.
  intros (Es & _ & Ew & Ej & _) (C & W & J). unfold stuck.
  by rewrite Es, Ew, Ej.
Qed.

Lemma class_stuck_step w e : stuck w → stuck (step w e).
Proof.
  intros S. pose proof S as (C & W & J).
  destruct e as [delay | | o | p o |].
  - eapply class_stuck_same; [| done]. apply same_async_step; try done. by rewrite C.
  - eapply class_stuck_same; [| done]. apply same_async_step; try done. by rewrite C.
  - eapply class_stuck_same; [| done]. apply same_async_step; try done. by rewrite C.
  - simpl. unfold settle. destruct (settled w !! p); [done |].
    unfold stuck. simpl. rewrite W. simpl. by rewrite app_nil_r.
  - simpl. unfold tick. destruct (jobs w) as [| [d [v | e]] js] eqn:E; [done | |].
    + apply Forall_cons in J as [[e' He'] _]. done.
    + apply Forall_cons in J as [_ J]. done.
Qed.

Lemma class_stuck_run es w : stuck w → ClassMixin._status (self (run es w)) = CLOSING.
Proof.
  intros S. cut (stuck (run es w)); [by intros (C & _) |].
  apply class_run_ind; [done |]. intros. by apply class_stuck_step.
Qed.

(** *** The course of a suspended [close] *)

Lemma class_tracks_same p d w w' : same_async w w' → tracks p d w → tracks p d w'.
Proof.
  intros (Es & Ese & Ew & Ej & Ep) T.
  destruct T as [q Hp C S W J H | o Hs Hn C W J H | e Hs C W J H | Hs C W J H].
  - apply (tracks_waiting _ _ _ q); try congruence. by apply Ep.
  - apply (tracks_ready _ _ _ o); try congruence.
    + intros q Hq. rewrite Ese. by apply Hs.
    + exact Hn.
    + by apply Ep.
  - apply (tracks_rejected _ _ _ e); try congruence.
    + destruct Hs as (q & Hq & Hs). exists q. by rewrite Ese.
    + by apply Ep.
  - apply tracks_closed; try congruence.
    + intros q Hq. rewrite Ese. by apply Hs.
    + by apply Ep.
Qed.

Lemma class_tracks_not_open p d w : tracks p d w → ClassMixin._status (self w) ≠ OPEN.
Proof. intros [q _ C | o _ _ C | e _ C | _ C]; by rewrite C. Qed.

Lemma class_tracks_settle p d q' o w : tracks p d w → tracks p d (settle q' o w).
Proof.
  intros T. unfold settle. destruct (settled w !! q') eqn:Q; [done |].
  destruct T as [q Hp C S W J H | o' Hs Hn C W J H | e Hs C W J H | Hs C W J H].
  - destruct (decide (q' = q)) as [-> | N].
    + apply (tracks_ready _ _ _ o); simpl; try done.
      * intros q2 Hq2. rewrite Hp in Hq2. injection Hq2 as <-.
        by rewrite lookup_insert_eq.
      * by rewrite Hp.
      * rewrite W, filter_cons, filter_nil. simpl. by rewrite decide_False by auto.
      * rewrite W, J, filter_cons, filter_nil. simpl. by rewrite decide_True.
    + apply (tracks_waiting _ _ _ q); simpl; try done.
      * by rewrite lookup_insert_ne.
      * rewrite W, filter_cons, filter_nil. simpl. by rewrite decide_True by auto.
      * rewrite W, J, filter_cons, filter_nil. simpl. by rewrite decide_False by auto.
  - apply (tracks_ready _ _ _ o'); simpl; try done.
    + intros q Hq. specialize (Hs q Hq). rewrite lookup_insert_ne; [done | congruence].
    + by rewrite W.
    + by rewrite W, J.
  - apply (tracks_rejected _ _ _ e); simpl; try done.
    + destruct Hs as (q & Hq & Hs). exists q. split; [done |].
      rewrite lookup_insert_ne; [done | congruence].
    + by rewrite W.
    + by rewrite W, J.
  - apply tracks_closed; simpl; try done.
    + intros q Hq. destruct (Hs q Hq) as [v Hv]. exists v.
      rewrite lookup_insert_ne; [done | congruence].
    + by rewrite W.
    + by rewrite W, J.
Qed.

Lemma class_tracks_tick p d w : tracks p d w → tracks p d (tick w).
Proof.
  intros T. unfold tick.
  destruct T as [q Hp C S W J H | o' Hs Hn C W J H | e Hs C W J H | Hs C W J H];
    rewrite J.
  - by apply (tracks_waiting _ _ _ q).
  - pose proof (lookup_lt_Some _ _ _ H) as L. destruct o' as [v | e].
    + apply tracks_closed; simpl; try done.
      * intros q Hq. exists v. by apply Hs.
      * by rewrite list_lookup_insert_eq.
    + apply (tracks_rejected _ _ _ e); simpl; try done.
      * destruct p as [q |]; [exists q; split; [done | by apply Hs] |].
        by destruct (Hn eq_refl).
      * by rewrite list_lookup_insert_eq.
  - by apply (tracks_rejected _ _ _ e).
  - by apply tracks_closed.
Qed.

Lemma class_tracks_step p d w e : tracks p d w → tracks p d (step w e).
Proof.
  intros T. destruct e as [delay | | o | q o |].
  - eapply class_tracks_same; [| exact T].
    apply same_async_step; try done. by eapply class_tracks_not_open.
  - eapply class_tracks_same; [| exact T].
    apply same_async_step; try done. by eapply class_tracks_not_open.
  - eapply class_tracks_same; [| exact T].
    apply same_async_step; try done. by eapply class_tracks_not_open.
  - by apply class_tracks_settle.
  - by apply class_tracks_tick.
Qed.

Lemma class_tracks_run p d es w : tracks p d w → tracks p d (run es w).
Proof. intros T. apply class_run_ind; [done |]. intros. by apply class_tracks_step. Qed.

(** A call of [close] that suspends is tracked from its return on. *)
Lemma close_suspended_tracks delay w f :
  inv w → ClassMixin._status (self w) = OPEN → ClassMixin._close (self w) = VFun f →
  (∀ v, behaviour f (length (log w))
          [Arg (ClassMixin.getDependencies (self w)); Opts delay] = Returns v →
        (close delay w).1 = length (promises w)
        ∧ tracks None (length (promises w)) (close delay w).2)
  ∧ (∀ p, behaviour f (length (log w))
            [Arg (ClassMixin.getDependencies (self w)); Opts delay] = ReturnsPromise p →
          (close delay w).1 = length (promises w)
          ∧ tracks (Some p) (length (promises w)) (close delay w).2).
Proof.
  intros (_ & _ & I3 & _ & _) O F.
  destruct (I3 ltac:(by rewrite O)) as [W J].
  rewrite (class_close_override _ _ f) by done. cbv zeta. split.
  - intros v ->. unfold await_value. simpl. split; [done |].
    apply (tracks_ready _ _ _ (Fulfilled v)); simpl; try done.
    + intros _. by exists v.
    + by rewrite J.
    + by apply list_lookup_middle.
  - intros p ->. unfold await_promise. simpl. split; [done |].
    destruct (settled w !! p) as [o |] eqn:S.
    + apply (tracks_ready _ _ _ o); simpl; try done.
      * by intros q [= <-].
      * by rewrite J.
      * by apply list_lookup_middle.
    + apply (tracks_waiting _ _ _ p); simpl; try done.
      * by rewrite W.
      * by apply list_lookup_middle.
Qed.

Lemma close_calls_app l1 l2 : close_calls (l1 ++ l2) = close_calls l1 + close_calls l2.
Proof. unfold close_calls. by rewrite filter_app, length_app. Qed.

Lemma log_grows w e : ∃ l, log (step w e) = log w ++ l.
Proof.
  destruct e as [delay | | o | p o |]; simpl.
  - destruct (close_cases delay w)
      as [[N ->] | [(O & T & ->) | [(O & T & F & ->) | (f & O & F & ->)]]];
      try (exists []; by rewrite app_nil_r).
    cbv zeta. destruct (behaviour f _ _); simpl; try (by eexists).
    unfold await_promise. simpl. destruct (_ !! _); by eexists.
  - unfold ClassAsync.isHealthy. case_decide; [exists []; by rewrite app_nil_r |].
    destruct (truthy _); [| exists []; by rewrite app_nil_r].
    destruct (ClassMixin._isHealthy (self w));
      try (exists []; by rewrite app_nil_r). by eexists.
  - exists []. by rewrite app_nil_r.
  - unfold settle. destruct (_ !! _); exists []; by rewrite app_nil_r.
  - unfold tick. destruct (jobs w) as [| [d [v | e]] js];
      exists []; by rewrite app_nil_r.
Qed.

Lemma close_calls_run es w : close_calls (log w) ≤ close_calls (log (run es w)).
Proof.
  induction es as [| e es IH] using rev_ind; [done |].
  rewrite class_run_snoc. destruct (log_grows (run es w) e) as [l ->].
  rewrite close_calls_app. lia.
Qed.

Lemma class_after_close_not_open delay es w :
  ClassMixin._status (self (run es (close delay w).2)) ≠ OPEN.
Proof.
  apply class_not_open_forever.
  destruct (decide (ClassMixin._status (self w) = OPEN)) as [O | N].
  - by apply class_close_leaves_open.
  - rewrite class_close_not_open by done. done.
Qed.

(** *** The properties *)

(** X18.  A shutdown that fails, in the class based revision.  [close]
    never throws: called in state [OPEN] with a truthy [_close], it
    returns a promise that is rejected from the start with the error of a
    user function that throws, or with a [TypeError] when [_close] is no
    function, and that is rejected with the same error, once the
    continuations have run, when the promise of the user function is
    rejected; and in each case the status stays [CLOSING] for good,
    whatever is called or set afterwards. *)
Theorem class_close_failure delay w :
  reachable w → ClassMixin._status (self w) = OPEN →
  truthy (ClassMixin._close (self w)) = true →
  (is_function (ClassMixin._close (self w)) = false →
   promises (close delay w).2 !! (close delay w).1
   = Some (Some (Rejected (not_a_function "_close")))
   ∧ log (close delay w).2 = log w
   ∧ ∀ es, status (run es (close delay w).2) = CLOSING)
  ∧ (∀ f e, ClassMixin._close (self w) = VFun f →
       behaviour f (length (log w))
         [Arg (ClassMixin.getDependencies (self w)); Opts delay] = Throws e →
       promises (close delay w).2 !! (close delay w).1 = Some (Some (Rejected e))
       ∧ ∀ es, status (run es (close delay w).2) = CLOSING)
  ∧ (∀ f p, ClassMixin._close (self w) = VFun f →
       behaviour f (length (log w))
         [Arg (ClassMixin.getDependencies (self w)); Opts delay] = ReturnsPromise p →
       ∀ es e, settled (run es (close delay w).2) !! p = Some (Rejected e) →
         promises (drain (run es (close delay w).2)) !! (close delay w).1
         = Some (Some (Rejected e))
         ∧ ∀ es', status (run es' (run es (close delay w).2)) = CLOSING).
Proof.
  intros Rw O T. pose proof (class_reachable_inv w Rw) as I.
  pose proof I as (_ & _ & I3 & _ & _).
  destruct (I3 ltac:(by rewrite O)) as [W J]. split_and!.
  - intros F. rewrite close_not_callable by done. simpl. split_and!.
    + by apply list_lookup_middle.
    + done.
    + intros es. apply class_stuck_run. unfold stuck. simpl. by rewrite W, J.
  - intros f e F B. rewrite (class_close_override _ _ f) by done. cbv zeta.
    rewrite B. simpl. split.
    + by apply list_lookup_middle.
    + intros es. apply class_stuck_run. unfold stuck. simpl. by rewrite W, J.
  - intros f p F B es e S.
    destruct (proj2 (close_suspended_tracks delay w f I O F) p B) as [-> Tr].
    pose proof (class_tracks_run _ _ es _ Tr) as T'.
    destruct T' as [q Hp C' S' W' J' H' | o Hs Hn C' W' J' H'
                   | e' Hs C' W' J' H' | Hs C' W' J' H'].
    + injection Hp as <-. congruence.
    + rewrite (Hs p eq_refl) in S. injection S as ->. split.
      * unfold ClassAsync.drain. rewrite J'. simpl. unfold tick. rewrite J'. simpl.
        apply list_lookup_insert_eq. by eapply lookup_lt_Some.
      * intros es'. apply class_stuck_run. unfold stuck. rewrite C', W', J'.
        split_and!; try done. apply Forall_cons. split; [by eexists | done].
    + destruct Hs as (q & [= <-] & Hs). rewrite Hs in S. injection S as ->. split.
      * unfold ClassAsync.drain. by rewrite J'.
      * intros es'. apply class_stuck_run. unfold stuck. by rewrite C', W', J'.
    + destruct (Hs p eq_refl) as [v Hv]. congruence.
Qed.

(** X19.  A shutdown that succeeds, in the class based revision.
    Without a close function [close] sets the status to [CLOSED] at once
    and returns a promise fulfilled with [undefined].  With one, even one
    that returns a plain value, the status is [CLOSING] and the promise
    pending when [close] returns; once the continuations have run (after
    the user's promise was fulfilled, when there is one) the status is
    [CLOSED] and the promise fulfilled with [undefined], whatever was
    called or set in between. *)
Theorem class_close_success delay w :
  reachable w → ClassMixin._status (self w) = OPEN →
  (truthy (ClassMixin._close (self w)) = false →
   status (close delay w).2 = CLOSED
   ∧ promises (close delay w).2 !! (close delay w).1
     = Some (Some (Fulfilled VUndefined))
   ∧ log (close delay w).2 = log w)
  ∧ (∀ f v, ClassMixin._close (self w) = VFun f →
       behaviour f (length (log w))
         [Arg (ClassMixin.getDependencies (self w)); Opts delay] = Returns v →
       status (close delay w).2 = CLOSING
       ∧ promises (close delay w).2 !! (close delay w).1 = Some None
       ∧ ∀ es, status (drain (run es (close delay w).2)) = CLOSED
               ∧ promises (drain (run es (close delay w).2)) !! (close delay w).1
                 = Some (Some (Fulfilled VUndefined)))
  ∧ (∀ f p, ClassMixin._close (self w) = VFun f →
       behaviour f (length (log w))
         [Arg (ClassMixin.getDependencies (self w)); Opts delay] = ReturnsPromise p →
       ∀ es v, settled (run es (close delay w).2) !! p = Some (Fulfilled v) →
         status (drain (run es (close delay w).2)) = CLOSED
         ∧ promises (drain (run es (close delay w).2)) !! (close delay w).1
           = Some (Some (Fulfilled VUndefined))).
Proof.
  intros Rw O. pose proof (class_reachable_inv w Rw) as I. split_and!.
  - intros T. rewrite class_close_no_override by done. simpl. split_and!; try done.
    by apply list_lookup_middle.
  - intros f v F B.
    destruct (proj1 (close_suspended_tracks delay w f I O F) v B) as [E Tr].
    rewrite E. split_and!.
    + rewrite (class_close_override _ _ f) by done. cbv zeta. by rewrite B.
    + rewrite (class_close_override _ _ f) by done. cbv zeta. rewrite B. simpl.
      by apply list_lookup_middle.
    + intros es. pose proof (class_tracks_run _ _ es _ Tr) as T'.
      destruct T' as [q Hp C' S' W' J' H' | o Hs Hn C' W' J' H'
                     | e' Hs C' W' J' H' | Hs C' W' J' H'].
      * done.
      * destruct (Hn eq_refl) as [v' ->].
        unfold ClassAsync.drain. rewrite J'. simpl. unfold tick. rewrite J'. simpl.
        split; [done |]. apply list_lookup_insert_eq. by eapply lookup_lt_Some.
      * by destruct Hs as (q & ? & _).
      * unfold ClassAsync.drain. by rewrite J'.
  - intros f p F B es v S.
    destruct (proj2 (close_suspended_tracks delay w f I O F) p B) as [-> Tr].
    pose proof (class_tracks_run _ _ es _ Tr) as T'.
    destruct T' as [q Hp C' S' W' J' H' | o Hs Hn C' W' J' H'
                   | e' Hs C' W' J' H' | Hs C' W' J' H'].
    + injection Hp as <-. congruence.
    + rewrite (Hs p eq_refl) in S. injection S as ->.
      unfold ClassAsync.drain. rewrite J'. simpl. unfold tick. rewrite J'. simpl.
      split; [done |]. apply list_lookup_insert_eq. by eapply lookup_lt_Some.
    + destruct Hs as (q & [= <-] & Hs). congruence.
    + unfold ClassAsync.drain. by rewrite J'.
Qed.

(** X20.  [close] is idempotent in the class based revision too.  Called
    when the status is not [OPEN] it returns a promise fulfilled with
    [undefined] and leaves the instance, the call record and what is
    pending as they are; in the life of an instance the user's close
    function is called once at most, and once exactly, for good, after a
    first [close] on an open instance that has one. *)
Theorem class_close_idempotent delay w :
  (ClassMixin._status (self w) ≠ OPEN →
   promises (close delay w).2 !! (close delay w).1
   = Some (Some (Fulfilled VUndefined))
   ∧ self (close delay w).2 = self w ∧ log (close delay w).2 = log w
   ∧ waiting (close delay w).2 = waiting w ∧ jobs (close delay w).2 = jobs w)
  ∧ (reachable w →
     close_calls (log w) ≤ 1
     ∧ (ClassMixin._status (self w) = OPEN → close_calls (log w) = 0)
     ∧ (∀ f, ClassMixin._status (self w) = OPEN →
          ClassMixin._close (self w) = VFun f →
          ∀ es, close_calls (log (run es (close delay w).2)) = 1)).
Proof.
  split.
  - intros N. rewrite class_close_not_open by done. simpl. split_and!; try done.
    by apply list_lookup_middle.
  - intros Rw. pose proof (class_reachable_inv w Rw) as I.
    pose proof I as (I1 & I2 & _). split_and!; try done.
    intros f O F es.
    pose proof (class_inv_run es _ (class_inv_close delay w I)) as (_ & I2' & _).
    pose proof (close_calls_run es (close delay w).2) as G.
    assert (close_calls (log (close delay w).2) = 1) as E; [| lia].
    rewrite (class_close_override _ _ f) by done. cbv zeta.
    destruct (behaviour f _ _); simpl;
      try (unfold await_promise; simpl; destruct (_ !! _); simpl);
      rewrite Lifecycle.close_calls_snoc, (I1 O); done.
Qed.

(** X21.  [isHealthy] in the class based revision answers with a promise
    in every case: fulfilled with [false], and nothing called, when the
    status is not [OPEN], hence after any call of [close]; fulfilled with
    [true] when it is [OPEN] and there is no health check; and with a
    health check, fulfilled with the value it returns, rejected with the
    error it throws, or following the promise it returns. *)
Theorem class_isHealthy_follows_status w :
  (ClassMixin._status (self w) ≠ OPEN →
   isHealthy w = (Settled (Fulfilled (VBool false)), w))
  ∧ (ClassMixin._status (self w) = OPEN →
     truthy (ClassMixin._isHealthy (self w)) = false →
     isHealthy w = (Settled (Fulfilled (VBool true)), w))
  ∧ (∀ f, ClassMixin._status (self w) = OPEN →
       ClassMixin._isHealthy (self w) = VFun f →
       (isHealthy w).1
       = match behaviour f (length (log w))
                 [Arg (ClassMixin.getDependencies (self w))] with
         | Returns v => Settled (Fulfilled v)
         | ReturnsPromise p => Follows p
         | Throws e => Settled (Rejected e)
         end
       ∧ status (isHealthy w).2 = OPEN)
  ∧ (∀ delay es,
       isHealthy (run es (close delay w).2)
       = (Settled (Fulfilled (VBool false)), run es (close delay w).2)).
Proof.
  assert (∀ w', ClassMixin._status (self w') ≠ OPEN →
                isHealthy w' = (Settled (Fulfilled (VBool false)), w')) as K.
  { intros w' N. unfold ClassAsync.isHealthy. by rewrite decide_True. }
  split_and!.
  - apply K.
  - intros O T. unfold ClassAsync.isHealthy.
    rewrite decide_False by (by rewrite O; auto). by rewrite T.
  - intros f O F. unfold ClassAsync.isHealthy.
    rewrite decide_False by (by rewrite O; auto). rewrite F. simpl. done.
  - intros delay es. apply K, class_after_close_not_open.
Qed.

(** X22.  The user's close function is handed the bundle that is current
    when [close] is called: after a [setDependencies] that succeeds, a
    [close] on the open instance calls it with the very bundle that was
    set, and with [{delay}]. *)
Theorem class_close_passes_current_bundle delay newDeps w f :
  ClassMixin._status (self w) = OPEN → ClassMixin._close (self w) = VFun f →
  truthy (get (ClassMixin.objects (self w)) newDeps "client") = true →
  last (log (close delay (step w (Store (ClassMixin.SetDependencies newDeps)))).2)
  = Some {| via := CloseFn; callee := f; this := 0;
            args := [Arg newDeps; Opts delay]; status_on_entry := CLOSING |}.
Proof.
  intros O F C. destruct (Setters.get_truthy_obj _ _ _ C) as [l ->].
  destruct (Store.setDependencies_accepted l (self w) C) as (S & _).
  destruct (Store.setDependencies_fields (VObj l) (self w)) as (Es & Ec & _).
  rewrite (class_close_override _ _ f); simpl; [| congruence | congruence].
  unfold ClassMixin.getDependencies. rewrite S.
  destruct (behaviour f _ _); simpl; try apply last_snoc.
  unfold await_promise. simpl. destruct (_ !! _); simpl; apply last_snoc.
Qed.

(** X23.  In the class based revision too the status never moves
    backward, [CLOSED] is final, and only a call of [close] or the
    continuation of one changes it: [setClient] and [setDependencies],
    [isHealthy] and the settling of a promise leave the status and the
    pending shutdown as they are. *)
Theorem class_status_only_moves_forward w es :
  rank (status w) ≤ rank (status (run es w))
  ∧ (status w = CLOSED → status (run es w) = CLOSED)
  ∧ (status w ≠ OPEN → status (run es w) ≠ OPEN)
  ∧ (∀ e, status (step w e) ≠ status w → (∃ delay, e = Close delay) ∨ e = Tick)
  ∧ (∀ o, status (step w (Store o)) = status w
          ∧ waiting (step w (Store o)) = waiting w
          ∧ jobs (step w (Store o)) = jobs w
          ∧ promises (step w (Store o)) = promises w
          ∧ log (step w (Store o)) = log w).
Proof.
  unfold status, ClassMixin.status. split_and!.
  - apply class_run_rank.
  - apply class_closed_terminal.
  - apply class_not_open_forever.
  - intros e N. destruct (step_status w e) as [E | [((delay & ->) & _) | (-> & _)]].
    + done.
    + left. by exists delay.
    + by right.
  - intros o. simpl. split_and!; try done.
    by destruct (Store.apply_fields (self w) o) as (-> & _).
Qed.

End WithBehaviour.

Lemma class_close_failure_witness :
  (promises (close close_throws VUndefined (start wrapped_with_overrides)).2
     !! (close close_throws VUndefined (start wrapped_with_overrides)).1
   = Some (Some (Rejected failed_to_close))
   ∧ status (run close_throws [Close VUndefined; Tick; Store (ClassMixin.SetClient (VObj 2))]
               (close close_throws VUndefined (start wrapped_with_overrides)).2)
     = CLOSING)
  ∧ promises (drain close_async
                (run close_async [Settle 0 (Rejected failed_to_close)]
                   (close close_async VUndefined (start wrapped_with_overrides)).2))
      !! (close close_async VUndefined (start wrapped_with_overrides)).1
    = Some (Some (Rejected failed_to_close)).
Proof.
  split.
  - destruct (proj1 (proj2 (class_close_failure close_throws VUndefined
                              (start wrapped_with_overrides)
                              (ex_intro _ wrapped_with_overrides
                                 (ex_intro _ [] (conj eq_refl eq_refl)))
                              eq_refl eq_refl))
                5 failed_to_close eq_refl eq_refl) as [H1 H2].
    split; [exact H1 |].
    exact (H2 [Close VUndefined; Tick; Store (ClassMixin.SetClient (VObj 2))]).
  - exact (proj1 (proj2 (proj2 (class_close_failure close_async VUndefined
                                  (start wrapped_with_overrides)
                                  (ex_intro _ wrapped_with_overrides
                                     (ex_intro _ [] (conj eq_refl eq_refl)))
                                  eq_refl eq_refl))
                    5 0 eq_refl eq_refl
                    [Settle 0 (Rejected failed_to_close)] failed_to_close eq_refl)).
Defined.

Lemma class_close_success_witness :
  (status (close quiet VUndefined (start wrapped)).2 = CLOSED
   ∧ promises (close quiet VUndefined (start wrapped)).2
       !! (close quiet VUndefined (start wrapped)).1
     = Some (Some (Fulfilled VUndefined)))
  ∧ status (close close_sync VUndefined (start wrapped_with_overrides)).2 = CLOSING
  ∧ status (drain close_sync
              (run close_sync [IsHealthy]
                 (close close_sync VUndefined (start wrapped_with_overrides)).2))
    = CLOSED.
Proof.
  split; [| split].
  - destruct (proj1 (class_close_success quiet VUndefined (start wrapped)
                       (ex_intro _ wrapped (ex_intro _ [] (conj eq_refl eq_refl)))
                       eq_refl) eq_refl) as (H1 & H2 & _).
    exact (conj H1 H2).
  - exact (proj1 (proj1 (proj2 (class_close_success close_sync VUndefined
                                  (start wrapped_with_overrides)
                                  (ex_intro _ wrapped_with_overrides
                                     (ex_intro _ [] (conj eq_refl eq_refl)))
                                  eq_refl))
                    5 (VStr "done") eq_refl eq_refl)).
  - exact (proj1 (proj2 (proj2 (proj1 (proj2 (class_close_success close_sync VUndefined
                                  (start wrapped_with_overrides)
                                  (ex_intro _ wrapped_with_overrides
                                     (ex_intro _ [] (conj eq_refl eq_refl)))
                                  eq_refl))
                    5 (VStr "done") eq_refl eq_refl)) [IsHealthy])).
Defined.

Lemma class_close_idempotent_witness :
  close_calls
    (log (run close_async [Close VUndefined; Settle 0 (Fulfilled VUndefined); Tick;
                           Close (VNum 1)]
            (close close_async VUndefined (start wrapped_with_overrides)).2)) = 1.
Proof.
  exact (proj2 (proj2 (proj2 (class_close_idempotent close_async VUndefined
                                (start wrapped_with_overrides))
                         (ex_intro _ wrapped_with_overrides
                            (ex_intro _ [] (conj eq_refl eq_refl)))))
           5 eq_refl eq_refl
           [Close VUndefined; Settle 0 (Fulfilled VUndefined); Tick; Close (VNum 1)]).
Defined.

Lemma class_isHealthy_follows_status_witness :
  (isHealthy close_async (start wrapped_with_overrides)).1
  = Settled (Fulfilled (VBool true))
  ∧ isHealthy quiet (start wrapped) = (Settled (Fulfilled (VBool true)), start wrapped).
Proof.
  split.
  - exact (proj1 (proj1 (proj2 (proj2 (class_isHealthy_follows_status close_async
                                         (start wrapped_with_overrides))))
                    6 eq_refl eq_refl)).
  - exact (proj1 (proj2 (class_isHealthy_follows_status quiet (start wrapped)))
             eq_refl eq_refl).
Defined.

Lemma class_close_passes_current_bundle_witness :
  last (log (close close_async (VNum 1)
               (step close_async (start wrapped_with_overrides)
                  (Store (ClassMixin.SetDependencies (VObj 0))))).2)
  = Some {| via := CloseFn; callee := 5; this := 0;
            args := [Arg (VObj 0); Opts (VNum 1)]; status_on_entry := CLOSING |}.
Proof.
  exact (class_close_passes_current_bundle close_async (VNum 1) (VObj 0)
           (start wrapped_with_overrides) 5 eq_refl eq_refl eq_refl).
Defined.

End ClassShutdown.
